(** * Shallow embedding of the proof-of-innocence list-provider pipeline

    Sources embedded here:
    - packages/node/src/api/poi-node-request.ts ([POINodeRequest] and the
      [ListProvider] abstract class that follows it in the same file);
    - packages/node/src/models/poi-types.ts (event and record shapes).

    The datastores (shield queue, status, POI event queue, blocklist) and
    the signer live in files that are not part of the sources; their
    operations are modelled from the spec and marked as such.

    Effects are written in a small reader/state/error monad [M]: the
    reader part is the [World] (configuration and the answers of the
    external collaborators: chain RPC, policy gate, signer, HTTP), the
    state part is [St] (the stores plus a trace of observable calls), and
    the error part models a rejected promise.  A JavaScript [try/catch]
    becomes [catch]: effects performed before the throw persist. *)

From Stdlib Require Import ZArith String Ascii List Sorting.Sorted.
From stdpp Require Import base gmap strings list pretty.
Import ListNotations.
Open Scope Z_scope.

(* ------------------------------------------------------------------ *)
(** ** Data model (poi-types.ts and the database item types) *)

Inductive ShieldStatus := Pending | Allowed | Blocked.

Inductive POIEventType := POIShield | POITransact | POILegacyTransact.

(** [ShieldData], as returned by the wallet adapter. *)
Module ShieldData.
Record t := mk {
  txid : string;
  hash : string;
  blindedCommitment : string;
  timestamp : Z;
  blockNumber : Z;
}.
End ShieldData.

(** [ShieldQueueDBItem]: the fields [validateShield] reads. *)
Module ShieldQueueDBItem.
Record t := mk {
  txid : string;
  commitmentHash : string;
  blindedCommitment : string;
  timestamp : Z;
  blockNumber : Z;
  status : ShieldStatus;
  lastValidatedTimestamp : option Z;
}.
End ShieldQueueDBItem.

Module POIEventShield.
Record t := mk {
  type : POIEventType;
  blindedCommitment : string;
  commitmentHash : string;
}.
End POIEventShield.

Module SignedBlockedShield.
Record t := mk {
  commitmentHash : string;
  blindedCommitment : string;
  blockReason : option string;
  signature : string;
}.
End SignedBlockedShield.

(** The part of an ethers transaction receipt the code reads. *)
Module TxReceipt.
Record t := mk { from : string }.
End TxReceipt.

Record ListProviderConfig := mkListProviderConfig {
  name : string;
  description : string;
  queueShieldsOverrideDelayMsec : option Z;
  validateShieldsOverrideDelayMsec : option Z;
}.

(** Observable calls, recorded in the order they are issued. *)
Inductive Event :=
  | ReceiptRequest (networkName txid : string)
  | PolicyCall (networkName txid fromAddressLowercase : string) (timestamp : Z)
  | GetPendingShieldsCall (networkName : string) (endTimestamp : Z) (limit : nat)
  | InsertAttempt (networkName : string) (shieldData : ShieldData.t)
  | NewShieldsRequest (networkName : string) (startingBlock : Z)
  | SaveStatusCall (networkName : string) (latestBlockScanned : Z)
  | Sign (message : string)
  | HttpPost (url : string)
  | Delay (msec : Z).

(** Keys of the shield queue: (network, txid, commitment hash). *)
Abbreviation ShieldKey := (string * string * string)%type.

Record St := mkSt {
  shieldQueue : gmap ShieldKey ShieldQueueDBItem.t;
  networkStatus : gmap string Z;
  poiEventQueue : list (string * POIEventShield.t);
  blockedShields : list (string * SignedBlockedShield.t);
  trace : list Event;
}.

(** The environment: the list provider instance ([config] and its
    [shouldAllowShield]), the configuration, and the answers of the
    external collaborators.  [None] is a rejected promise. *)
Record World := mkWorld {
  config : ListProviderConfig;
  policyVerdict : string -> string -> string -> Z -> option (bool * option string);
  isListProvider : bool;
  listPublicKey : option string;
  NETWORK_NAMES : list string;
  deploymentBlock : string -> Z;
  chainRoute : string -> string;
  now : Z;
  HOURS_SHIELD_PENDING_PERIOD : Z;
  walletNewShields : string -> Z -> option (list ShieldData.t);
  rpcReceipt : string -> string -> option TxReceipt.t;
  rpcBlockTimestamp : string -> TxReceipt.t -> option Z;
  insertFails : string -> ShieldData.t -> bool;
  updateFails : string -> ShieldQueueDBItem.t -> bool;
  getPendingFails : string -> bool;
  signer : string -> option string;
  postFails : string -> bool;
}.

(* ------------------------------------------------------------------ *)
(** ** The monad *)

Inductive Result (A : Type) := Ok (a : A) | Err (e : string).
Arguments Ok {A} a.
Arguments Err {A} e.

Definition M (A : Type) : Type := World -> St -> Result A * St.

Definition ret {A} (a : A) : M A := fun _ s => (Ok a, s).
Definition throw {A} (e : string) : M A := fun _ s => (Err e, s).
Definition bind {A B} (m : M A) (k : A -> M B) : M B :=
  fun w s => match m w s with
             | (Ok a, s1) => k a w s1
             | (Err e, s1) => (Err e, s1)
             end.
Definition catch {A} (m : M A) (h : string -> M A) : M A :=
  fun w s => match m w s with
             | (Ok a, s1) => (Ok a, s1)
             | (Err e, s1) => h e w s1
             end.
Definition ask : M World := fun w s => (Ok w, s).
Definition get : M St := fun _ s => (Ok s, s).
Definition put (s : St) : M unit := fun _ _ => (Ok tt, s).

Notation "'let!' x := m 'in' k" := (bind m (fun x => k))
  (at level 200, x name, m at level 100, k at level 200).

(** Lift the answer of an external call into the monad. *)
Definition liftOpt {A} (msg : string) (o : option A) : M A :=
  match o with Some a => ret a | None => throw msg end.

Definition emit (ev : Event) : M unit :=
  fun _ s => (Ok tt, mkSt (shieldQueue s) (networkStatus s) (poiEventQueue s)
                           (blockedShields s) (trace s ++ [ev])).

(** [Promise.all] over already-started promises: every promise runs to
    completion; the combined promise rejects with the first rejection. *)
Fixpoint promiseAll (ms : list (M unit)) : M unit :=
  match ms with
  | [] => ret tt
  | m :: ms' => fun w s =>
      match m w s with
      | (Ok _, s1) => promiseAll ms' w s1
      | (Err e, s1) => let (_, s2) := promiseAll ms' w s1 in (Err e, s2)
      end
  end.

(** A sequential [for] loop with [await] in its body. *)
Fixpoint forSeries {A} (l : list A) (f : A -> M unit) : M unit :=
  match l with
  | [] => ret tt
  | x :: l' => let! _ := f x in forSeries l' f
  end.

(** TypeScript's [a ?? b] on an optional field. *)
Definition nullish {A} (o : option A) (d : A) : A :=
  match o with Some a => a | None => d end.

Definition setShieldQueue (q : gmap ShieldKey ShieldQueueDBItem.t) (s : St) : St :=
  mkSt q (networkStatus s) (poiEventQueue s) (blockedShields s) (trace s).
Definition setNetworkStatus (n : gmap string Z) (s : St) : St :=
  mkSt (shieldQueue s) n (poiEventQueue s) (blockedShields s) (trace s).
Definition setPoiEventQueue (l : list (string * POIEventShield.t)) (s : St) : St :=
  mkSt (shieldQueue s) (networkStatus s) l (blockedShields s) (trace s).
Definition setBlockedShields (l : list (string * SignedBlockedShield.t)) (s : St) : St :=
  mkSt (shieldQueue s) (networkStatus s) (poiEventQueue s) l (trace s).

(* ------------------------------------------------------------------ *)
(** ** String helpers *)

(** [String.prototype.toLowerCase] on the ASCII range (addresses are hex
    strings with a [0x] prefix). *)
Definition isUpperAscii (c : ascii) : bool :=
  (65 <=? nat_of_ascii c)%nat && (nat_of_ascii c <=? 90)%nat.

Definition lowerAscii (c : ascii) : ascii :=
  if isUpperAscii c then ascii_of_nat (nat_of_ascii c + 32) else c.

Fixpoint toLowerCase (s : string) : string :=
  match s with
  | EmptyString => EmptyString
  | String c s' => String (lowerAscii c) (toLowerCase s')
  end.

Fixpoint hasUpper (s : string) : bool :=
  match s with
  | EmptyString => false
  | String c s' => isUpperAscii c || hasUpper s'
  end.

(* ------------------------------------------------------------------ *)
(** ** External collaborators *)

(** [getTransactionReceipt] (rpc-providers/tx-receipt). *)
Definition getTransactionReceipt (networkName txid : string) : M TxReceipt.t :=
  let! _ := emit (ReceiptRequest networkName txid) in
  let! w := ask in
  liftOpt "No transaction receipt" (rpcReceipt w networkName txid).

(** [getTimestampFromTransactionReceipt] (rpc-providers/tx-receipt). *)
Definition getTimestampFromTransactionReceipt (networkName : string)
    (txReceipt : TxReceipt.t) : M Z :=
  let! w := ask in
  liftOpt "No block for receipt" (rpcBlockTimestamp w networkName txReceipt).

(** [getNewShieldsFromWallet] (engine/wallet). *)
Definition getNewShieldsFromWallet (networkName : string) (startingBlock : Z)
    : M (list ShieldData.t) :=
  let! _ := emit (NewShieldsRequest networkName startingBlock) in
  let! w := ask in
  liftOpt "Could not get new shields" (walletNewShields w networkName startingBlock).

(** The abstract [shouldAllowShield] of the list provider instance. *)
Definition shouldAllowShield (networkName txid fromAddressLowercase : string)
    (timestamp : Z) : M (bool * option string) :=
  let! _ := emit (PolicyCall networkName txid fromAddressLowercase timestamp) in
  let! w := ask in
  liftOpt "Policy error" (policyVerdict w networkName txid fromAddressLowercase timestamp).

(** Modelled from the spec: [hoursAgo] of util/time-ago (not in the
    sources), "now minus the given number of hours", in milliseconds. *)
Definition hoursAgo (hours : Z) : M Z :=
  let! w := ask in ret (now w - hours * 60 * 60 * 1000).

(** Modelled from the spec: the Ed25519 signer of util/ed25519 (not in
    the sources): [sign(message)] with the process key. *)
Definition signMessage (message : string) : M string :=
  let! _ := emit (Sign message) in
  let! w := ask in
  liftOpt "Signing failed" (signer w message).

(** Modelled from the spec: [getListPublicKey] of util/ed25519 (not in
    the sources): the hex public key of the process key. *)
Definition getListPublicKey : M string :=
  let! w := ask in liftOpt "No list key" (listPublicKey w).

(** [delay] of shared-models: the wait is recorded. *)
Definition delay (msec : Z) : M unit := emit (Delay msec).

(* ------------------------------------------------------------------ *)
(** ** Stores *)

Definition itemKey (networkName : string) (it : ShieldQueueDBItem.t) : ShieldKey :=
  (networkName, ShieldQueueDBItem.txid it, ShieldQueueDBItem.commitmentHash it).

Definition withStatus (it : ShieldQueueDBItem.t) (st : ShieldStatus) : ShieldQueueDBItem.t :=
  ShieldQueueDBItem.mk (ShieldQueueDBItem.txid it) (ShieldQueueDBItem.commitmentHash it)
    (ShieldQueueDBItem.blindedCommitment it) (ShieldQueueDBItem.timestamp it)
    (ShieldQueueDBItem.blockNumber it) st (ShieldQueueDBItem.lastValidatedTimestamp it).

(** Modelled from the spec: [ShieldQueueDatabase.insertPendingShield]
    (database/databases/shield-queue-database, not in the sources):
    upsert with status Pending and no validation timestamp; an existing
    row with the same (network, txid, hash) is left as it is. *)
Definition insertPendingShield (networkName : string) (sd : ShieldData.t) : M unit :=
  let! _ := emit (InsertAttempt networkName sd) in
  let! w := ask in
  if insertFails w networkName sd then throw "Insert failed" else
  let! s := get in
  let k := (networkName, ShieldData.txid sd, ShieldData.hash sd) in
  match shieldQueue s !! k with
  | Some _ => ret tt
  | None =>
      put (setShieldQueue
             (<[k := ShieldQueueDBItem.mk (ShieldData.txid sd) (ShieldData.hash sd)
                       (ShieldData.blindedCommitment sd) (ShieldData.timestamp sd)
                       (ShieldData.blockNumber sd) Pending None]> (shieldQueue s)) s)
  end.

Definition isPending (st : ShieldStatus) : bool :=
  match st with Pending => true | _ => false end.

Definition eligible (endTimestamp : Z) (it : ShieldQueueDBItem.t) : bool :=
  isPending (ShieldQueueDBItem.status it) && (ShieldQueueDBItem.timestamp it <=? endTimestamp).

Definition rowsOf (networkName : string) (q : gmap ShieldKey ShieldQueueDBItem.t)
    : list ShieldQueueDBItem.t :=
  map snd (List.filter (fun kv => String.eqb kv.1.1.1 networkName) (map_to_list q)).

Fixpoint insertByTimestamp (x : ShieldQueueDBItem.t) (l : list ShieldQueueDBItem.t)
    : list ShieldQueueDBItem.t :=
  match l with
  | [] => [x]
  | y :: l' =>
      if ShieldQueueDBItem.timestamp x <=? ShieldQueueDBItem.timestamp y
      then x :: l else y :: insertByTimestamp x l'
  end.

Definition sortByTimestamp (l : list ShieldQueueDBItem.t) : list ShieldQueueDBItem.t :=
  fold_right insertByTimestamp [] l.

(** Modelled from the spec: [ShieldQueueDatabase.getPendingShields]
    (not in the sources): up to [limit] rows of the network with status
    Pending and [timestamp <= endTimestamp], by ascending timestamp. *)
Definition getPendingShields (networkName : string) (endTimestamp : Z) (limit : nat)
    : M (list ShieldQueueDBItem.t) :=
  let! _ := emit (GetPendingShieldsCall networkName endTimestamp limit) in
  let! w := ask in
  if getPendingFails w networkName then throw "Datastore unavailable" else
  let! s := get in
  ret (take limit (sortByTimestamp
         (List.filter (eligible endTimestamp) (rowsOf networkName (shieldQueue s))))).

(** Modelled from the spec: [ShieldQueueDatabase.updateShieldStatus]
    (not in the sources): Pending moves to the new status, the same
    terminal status is a no-op, any other change is an error. *)
Definition updateShieldStatus (networkName : string) (it : ShieldQueueDBItem.t)
    (st : ShieldStatus) : M unit :=
  let! w := ask in
  if updateFails w networkName it then throw "Update failed" else
  let! s := get in
  let k := itemKey networkName it in
  match shieldQueue s !! k with
  | None => ret tt
  | Some row =>
      match ShieldQueueDBItem.status row, st with
      | Pending, _ => put (setShieldQueue (<[k := withStatus row st]> (shieldQueue s)) s)
      | Allowed, Allowed | Blocked, Blocked => ret tt
      | _, _ => throw "Cannot regress shield status"
      end
  end.

(** Modelled from the spec: [StatusDatabase.getStatus] (not in the
    sources). *)
Definition getStatus (networkName : string) : M (option Z) :=
  let! s := get in ret (networkStatus s !! networkName).

(** Modelled from the spec: [StatusDatabase.saveStatus] (not in the
    sources): rejects a value below the stored one. *)
Definition saveStatus (networkName : string) (latestBlockScanned : Z) : M unit :=
  let! _ := emit (SaveStatusCall networkName latestBlockScanned) in
  let! s := get in
  match networkStatus s !! networkName with
  | Some cur =>
      if latestBlockScanned <? cur then throw "Status must not decrease"
      else put (setNetworkStatus (<[networkName := latestBlockScanned]> (networkStatus s)) s)
  | None => put (setNetworkStatus (<[networkName := latestBlockScanned]> (networkStatus s)) s)
  end.

(** Modelled from the spec: [ListProviderPOIEventQueue.queueUnsignedPOIShieldEvent]
    (not in the sources): the event is buffered for later signing. *)
Definition queueUnsignedPOIShieldEvent (networkName : string) (ev : POIEventShield.t)
    : M unit :=
  let! s := get in put (setPoiEventQueue (poiEventQueue s ++ [(networkName, ev)]) s).

(** Modelled from the spec: [ListProviderBlocklist.addBlockedShield] (not
    in the sources): sign [commitmentHash ‖ blindedCommitment ‖
    (blockReason ?? "")] and append the signed record. *)
Definition blockedShieldMessage (it : ShieldQueueDBItem.t) (blockReason : option string)
    : string :=
  String.append (ShieldQueueDBItem.commitmentHash it)
    (String.append (ShieldQueueDBItem.blindedCommitment it) (nullish blockReason EmptyString)).

Definition addBlockedShield (networkName : string) (it : ShieldQueueDBItem.t)
    (blockReason : option string) : M unit :=
  let! signature := signMessage (blockedShieldMessage it blockReason) in
  let! s := get in
  put (setBlockedShields
         (blockedShields s ++
            [(networkName, SignedBlockedShield.mk (ShieldQueueDBItem.commitmentHash it)
                             (ShieldQueueDBItem.blindedCommitment it) blockReason signature)]) s).

(* ------------------------------------------------------------------ *)
(** ** [ListProvider] (api/poi-node-request.ts) *)

(** 20 minutes *)
Definition DEFAULT_QUEUE_SHIELDS_DELAY_MSEC : Z := 20 * 60 * 1000.

(** 30 seconds *)
Definition DEFAULT_VALIDATE_SHIELDS_DELAY_MSEC : Z := 30 * 1000.

Definition queueShieldSafe (networkName : string) (shieldData : ShieldData.t) : M unit :=
  catch (insertPendingShield networkName shieldData)
        (fun _ => (* dbg(...) *) ret tt).

(** [newShields[newShields.length - 1]] *)
Definition lastElement {A} (l : list A) : option A := l !! (length l - 1)%nat.

Definition queueNewShields (networkName : string) : M unit :=
  let! status := getStatus networkName in
  let! w := ask in
  let startingBlock := nullish status (deploymentBlock w networkName) in
  let! newShields := getNewShieldsFromWallet networkName startingBlock in
  let! _ := promiseAll (map (queueShieldSafe networkName) newShields) in
  if (0 <? length newShields)%nat then
    match lastElement newShields with
    | Some lastShieldScanned => saveStatus networkName (ShieldData.blockNumber lastShieldScanned)
    | None => throw "Cannot read properties of undefined"
    end
  else ret tt.

Definition getMaxTimestampForValidation : M Z :=
  let! w := ask in hoursAgo (HOURS_SHIELD_PENDING_PERIOD w).

(** The body of the [try] block of [validateShield]. *)
Definition validateShieldBody (networkName : string) (shieldDBItem : ShieldQueueDBItem.t)
    (endTimestamp : Z) : M unit :=
  let txid := ShieldQueueDBItem.txid shieldDBItem in
  let! txReceipt := getTransactionReceipt networkName txid in
  let! timestamp := getTimestampFromTransactionReceipt networkName txReceipt in
  if endTimestamp <? timestamp then
    (* Shield is too new to validate *)
    throw "Invalid timestamp"
  else
  let! verdict := shouldAllowShield networkName txid
                    (toLowerCase (TxReceipt.from txReceipt)) timestamp in
  let (shouldAllow, blockReason) := verdict in
  let! _ :=
    if shouldAllow then
      (* Allow - add POIEvent *)
      queueUnsignedPOIShieldEvent networkName
        (POIEventShield.mk POIShield (ShieldQueueDBItem.blindedCommitment shieldDBItem)
                                     (ShieldQueueDBItem.commitmentHash shieldDBItem))
    else
      (* Block - add BlockedShield *)
      addBlockedShield networkName shieldDBItem blockReason in
  (* Update status in DB *)
  updateShieldStatus networkName shieldDBItem (if shouldAllow then Allowed else Blocked).

Definition validateShield (networkName : string) (shieldDBItem : ShieldQueueDBItem.t)
    (endTimestamp : Z) : M unit :=
  catch (validateShieldBody networkName shieldDBItem endTimestamp)
        (fun _ => (* dbg(...) *) ret tt).

Definition validateNextQueuedShieldBatch (networkName : string) : M unit :=
  let! endTimestamp := getMaxTimestampForValidation in
  let! pendingShields :=
    catch (let limit := 100%nat in
           let! pendingShields := getPendingShields networkName endTimestamp limit in
           ret (Some pendingShields))
          (fun _ => ret None) in
  match pendingShields with
  | None | Some [] => ret tt
  | Some pendingShields =>
      promiseAll (map (fun shieldData => validateShield networkName shieldData endTimestamp)
                      pendingShields)
  end.

(** One iteration of [runQueueShieldsPoller]: the networks in series,
    then the delay; the recursive call that follows starts the next
    iteration. *)
Definition runQueueShieldsPoller : M unit :=
  let! w := ask in
  let! _ := forSeries (NETWORK_NAMES w) queueNewShields in
  delay (nullish (queueShieldsOverrideDelayMsec (config w)) DEFAULT_QUEUE_SHIELDS_DELAY_MSEC).

(** One iteration of [runValidateQueuedShieldsPoller], as written: its
    delay reads [queueShieldsOverrideDelayMsec]. *)
Definition runValidateQueuedShieldsPoller : M unit :=
  let! w := ask in
  let! _ := forSeries (NETWORK_NAMES w) validateNextQueuedShieldBatch in
  delay (nullish (queueShieldsOverrideDelayMsec (config w)) DEFAULT_VALIDATE_SHIELDS_DELAY_MSEC).

(* ------------------------------------------------------------------ *)
(** ** [POINodeRequest] (api/poi-node-request.ts) *)

Definition getNodeRouteURL (url route : string) : string :=
  String.append url (String.append "/" route).

(** [postRequest]: the request is issued (and recorded) before the
    answer is known; a failed request rejects. *)
Definition postRequest (url : string) : M unit :=
  let! _ := emit (HttpPost url) in
  let! w := ask in
  if postFails w url then throw "Request failed" else ret tt.

(** Modelled from the spec: [signRemoveProof] of util/ed25519 (not in the
    sources): a signature by the list key over the parameters. *)
Definition signRemoveProof (blindedCommitmentsOut : list string)
    (railgunTxidIfHasUnshield : string) : M string :=
  signMessage (String.append (String.concat "" blindedCommitmentsOut) railgunTxidIfHasUnshield).

(** Modelled from the spec: [signValidatedTxidMerkleroot] of util/ed25519
    (not in the sources): a signature by the list key over the parameters. *)
Definition signValidatedTxidMerkleroot (txidIndex : Z) (merkleroot : string) : M string :=
  signMessage (String.append (pretty txidIndex) merkleroot).

Definition removeTransactProof (nodeURL networkName txidVersion listKey : string)
    (blindedCommitmentsOut : list string) (railgunTxidIfHasUnshield : string) : M unit :=
  let! w := ask in
  let route := String.append "remove-transact-proof/" (chainRoute w networkName) in
  let url := getNodeRouteURL nodeURL route in
  if negb (isListProvider w) then
    (* Cannot sign without list. *)
    ret tt
  else
  let! signature := signRemoveProof blindedCommitmentsOut railgunTxidIfHasUnshield in
  postRequest url.

Definition submitValidatedTxidAndMerkleroot (nodeURL networkName txidVersion : string)
    (txidIndex : Z) (merkleroot : string) : M unit :=
  let! w := ask in
  let route := String.append "submit-validated-txid/" (chainRoute w networkName) in
  let url := getNodeRouteURL nodeURL route in
  let! listKey := getListPublicKey in
  if negb (isListProvider w) then
    (* Cannot sign without list. *)
    ret tt
  else
  let! signature := signValidatedTxidMerkleroot txidIndex merkleroot in
  postRequest url.

(* ------------------------------------------------------------------ *)
(** ** Specification helpers and concrete inputs *)

(** A computation that never rejects. *)
Definition NoThrow {A} (m : M A) : Prop :=
  forall w s, exists a s', m w s = (Ok a, s').

(** [ListProviderConfig] with only the queue override set. *)
Definition cfgQueueOverride : ListProviderConfig :=
  mkListProviderConfig "list" "" (Some (20 * 60 * 1000)) None.

(** [ListProviderConfig] with only the validate override set. *)
Definition cfgValidateOverride : ListProviderConfig :=
  mkListProviderConfig "list" "" None (Some 5000).

Definition worldWith (cfg : ListProviderConfig) : World :=
  mkWorld cfg (fun _ _ _ _ => Some (true, None)) true (Some "key") ["Ethereum"]
    (fun _ => 0) (fun _ => "0/1") 0 1 (fun _ _ => Some [])
    (fun _ _ => None) (fun _ _ => None) (fun _ _ => false) (fun _ _ => false)
    (fun _ => false) (fun _ => Some "sig") (fun _ => false).

Definition emptySt : St := mkSt ∅ ∅ [] [] [].

(** The delay that closes one iteration of the validate poller. *)
Definition lastDelay (s : St) : option Z :=
  match last (trace s) with Some (Delay d) => Some d | _ => None end.

(** The trace only grows, by events satisfying [P]. *)
Definition ExtendsAt (P : World -> Event -> Prop) {A} (m : M A) (w : World) (s : St) : Prop :=
  exists l, trace (snd (m w s)) = trace s ++ l /\ Forall (P w) l.

Definition Extends (P : World -> Event -> Prop) {A} (m : M A) : Prop :=
  forall w s, ExtendsAt P m w s.

(** Every call to the policy gate carries the lowercased [from] address
    of the receipt fetched for the same network and txid, and that
    address has no uppercase letter. *)
Definition policyArgsLowercase (w : World) (ev : Event) : Prop :=
  match ev with
  | PolicyCall networkName txid fromAddress _ =>
      exists rcpt, rpcReceipt w networkName txid = Some rcpt /\
                   fromAddress = toLowerCase (TxReceipt.from rcpt) /\
                   hasUpper fromAddress = false
  | _ => True
  end.

Definition tsLe (a b : ShieldQueueDBItem.t) : Prop :=
  ShieldQueueDBItem.timestamp a <= ShieldQueueDBItem.timestamp b.

Abbreviation Anything := (fun (_ : World) (_ : Event) => True).

(** The [saveStatus] call a [queueNewShields] run makes after its inserts:
    one, with the block of the last shield, when there is a last shield. *)
Definition saveStatusEvents (networkName : string) (newShields : list ShieldData.t)
    : list Event :=
  match lastElement newShields with
  | Some x => [SaveStatusCall networkName (ShieldData.blockNumber x)]
  | None => []
  end.

Definition sampleItem : ShieldQueueDBItem.t :=
  ShieldQueueDBItem.mk "0x1234" "0x5678" "0x9abc" 10 100 Pending None.

Definition sampleReceipt : TxReceipt.t := TxReceipt.mk "0xAbCd".

(** A world where every receipt is [sampleReceipt] mined at time 10, the
    policy blocks [0xabcd], and the process is or is not a list provider. *)
Definition sampleWorld (listProvider : bool) : World :=
  mkWorld cfgQueueOverride
    (fun _ _ fromAddress _ =>
       if String.eqb fromAddress "0xabcd" then Some (false, Some "excluded")
       else Some (true, None))
    listProvider (Some "key") ["Ethereum"] (fun _ => 0) (fun _ => "0/1") 100 1
    (fun _ _ => Some []) (fun _ _ => Some sampleReceipt) (fun _ _ => Some 10)
    (fun _ _ => false) (fun _ _ => false) (fun _ => false) (fun _ => Some "sig")
    (fun _ => false).

Definition sampleSt : St :=
  mkSt {[itemKey "Ethereum" sampleItem := sampleItem]} ∅ [] [] [].

(** The scenario of the shield-queue-database test: a row of now and a
    row of ten days ago; only the older one is pending at seven days ago. *)
Definition dayMsec : Z := 24 * 60 * 60 * 1000.

Definition recentRow : ShieldQueueDBItem.t :=
  ShieldQueueDBItem.mk "0x1234" "0x5678" "0x01" (100 * dayMsec) 1 Pending None.

Definition oldRow : ShieldQueueDBItem.t :=
  ShieldQueueDBItem.mk "0x9876" "0x5432" "0x02" (90 * dayMsec) 1 Pending None.

(** The state [s] with [l] appended to its trace. *)
Definition appendTrace (s : St) (l : list Event) : St :=
  mkSt (shieldQueue s) (networkStatus s) (poiEventQueue s) (blockedShields s) (trace s ++ l).

Definition isPendingQuery (ev : Event) : bool :=
  match ev with GetPendingShieldsCall _ _ _ => true | _ => false end.

Definition isPolicyCall (ev : Event) : bool :=
  match ev with PolicyCall _ _ _ _ => true | _ => false end.

Definition isDelay (ev : Event) : bool :=
  match ev with Delay _ => true | _ => false end.

Definition isNewShieldsRequest (ev : Event) : bool :=
  match ev with NewShieldsRequest _ _ => true | _ => false end.

(** Two networks; the chain observer rejects every request. *)
Definition observerDownWorld : World :=
  mkWorld cfgQueueOverride (fun _ _ _ _ => Some (true, None)) true (Some "key")
    ["Ethereum"; "Polygon"] (fun _ => 14693000) (fun _ => "0/1") 100 1
    (fun _ _ => None) (fun _ _ => Some sampleReceipt) (fun _ _ => Some 10)
    (fun _ _ => false) (fun _ _ => false) (fun _ => false) (fun _ => Some "sig")
    (fun _ => false).

(** The policy allows every shield; the datastore refuses every status update. *)
Definition updateDownWorld : World :=
  mkWorld cfgQueueOverride (fun _ _ _ _ => Some (true, None)) true (Some "key")
    ["Ethereum"] (fun _ => 0) (fun _ => "0/1") 100 1
    (fun _ _ => Some []) (fun _ _ => Some sampleReceipt) (fun _ _ => Some 10)
    (fun _ _ => false) (fun _ _ => true) (fun _ => false) (fun _ => Some "sig")
    (fun _ => false).

(** The policy blocks every shield; the signer fails. *)
Definition signerDownWorld : World :=
  mkWorld cfgQueueOverride (fun _ _ _ _ => Some (false, Some "excluded")) true (Some "key")
    ["Ethereum"] (fun _ => 0) (fun _ => "0/1") 100 1
    (fun _ _ => Some []) (fun _ _ => Some sampleReceipt) (fun _ _ => Some 10)
    (fun _ _ => false) (fun _ _ => false) (fun _ => false) (fun _ => None)
    (fun _ => false).

(** [m] leaves the part [f] of the state unchanged. *)
Definition Keeps {X A} (f : St -> X) (m : M A) : Prop :=
  forall w s, f (snd (m w s)) = f s.

(* ================================================================== *)
(** * Properties *)


Lemma catch_ret_nothrow {A} (m : M A) (a : A) : NoThrow (catch m (fun _ => ret a)).
Proof.
  intros w s. unfold catch, ret.
  destruct (m w s) as [[b|e] s1]; eauto.
Qed.

Lemma promiseAll_nothrow (ms : list (M unit)) :
  Forall NoThrow ms -> NoThrow (promiseAll ms).
Proof.
  induction 1 as [|m ms Hm _ IH]; intros w s.
  - exists tt, s. reflexivity.
  - destruct (Hm w s) as (a & s1 & E). cbn. rewrite E. apply IH.
Qed.

Lemma forSeries_nothrow {A} (l : list A) (f : A -> M unit) :
  (forall x, NoThrow (f x)) -> NoThrow (forSeries l f).
Proof.
  intros Hf. induction l as [|x l IH]; intros w s.
  - exists tt, s. reflexivity.
  - destruct (Hf x w s) as (a & s1 & E). cbn. unfold bind. rewrite E. apply IH.
Qed.

Lemma validateShield_nothrow networkName it endTimestamp :
  NoThrow (validateShield networkName it endTimestamp).
Proof. apply catch_ret_nothrow. Qed.

Lemma getMaxTimestampForValidation_eq w s :
  getMaxTimestampForValidation w s
  = (Ok (now w - HOURS_SHIELD_PENDING_PERIOD w * 60 * 60 * 1000), s).
Proof. reflexivity. Qed.

Lemma validateNextQueuedShieldBatch_nothrow networkName :
  NoThrow (validateNextQueuedShieldBatch networkName).
Proof.
  intros w s. unfold validateNextQueuedShieldBatch. unfold bind at 1.
  rewrite getMaxTimestampForValidation_eq. unfold bind at 1.
  destruct (catch_ret_nothrow
              (let! ps := getPendingShields networkName
                            (now w - HOURS_SHIELD_PENDING_PERIOD w * 60 * 60 * 1000) 100
               in ret (Some ps)) None w s) as (r & s1 & E).
  rewrite E. destruct r as [[|x l]|]; try (eexists _, _; reflexivity).
  apply promiseAll_nothrow. apply Forall_forall. intros m Hm.
  apply list_elem_of_In, in_map_iff in Hm as (y & <- & _). apply validateShield_nothrow.
Qed.


Lemma runValidateQueuedShieldsPoller_delay w s :
  fst (runValidateQueuedShieldsPoller w s) = Ok tt /\
  lastDelay (snd (runValidateQueuedShieldsPoller w s))
  = Some (nullish (queueShieldsOverrideDelayMsec (config w))
                  DEFAULT_VALIDATE_SHIELDS_DELAY_MSEC).
Proof.
  unfold runValidateQueuedShieldsPoller, bind at 1, ask.
  unfold bind.
  destruct (forSeries_nothrow (NETWORK_NAMES w) validateNextQueuedShieldBatch
              validateNextQueuedShieldBatch_nothrow w s) as (a & s1 & E).
  rewrite E. cbn. split; [reflexivity|].
  unfold lastDelay. cbn. rewrite last_snoc. reflexivity.
Qed.

(** Claim C3 (code_bug).  The validate-shields poller takes its delay
    from [queueShieldsOverrideDelayMsec], not from
    [validateShieldsOverrideDelayMsec]: with only the queue override set
    (20 min) it waits 20 minutes instead of 30 s, and with only the
    validate override set (5 s) it waits the 30 s default. *)
Theorem validate_poller_delay_failing_input :
  lastDelay (snd (runValidateQueuedShieldsPoller (worldWith cfgQueueOverride) emptySt))
    = Some 1200000 /\
  validateShieldsOverrideDelayMsec cfgQueueOverride = None /\
  lastDelay (snd (runValidateQueuedShieldsPoller (worldWith cfgValidateOverride) emptySt))
    = Some 30000 /\
  validateShieldsOverrideDelayMsec cfgValidateOverride = Some 5000.
Proof.
  split; [|split; [reflexivity|split; [|reflexivity]]].
  - rewrite (proj2 (runValidateQueuedShieldsPoller_delay _ _)). reflexivity.
  - rewrite (proj2 (runValidateQueuedShieldsPoller_delay _ _)). reflexivity.
Qed.

Ltac run_steps :=
  repeat (unfold validateShield, validateShieldBody, catch, bind, getTransactionReceipt,
            getTimestampFromTransactionReceipt, shouldAllowShield, emit, ask, get, put,
            updateShieldStatus, queueUnsignedPOIShieldEvent, addBlockedShield, signMessage,
            setShieldQueue, setPoiEventQueue, setBlockedShields,
            liftOpt, ret, throw in *; cbn -[lookup insert] in *).

(** Claim C6.  A row whose receipt timestamp is after [endTimestamp] is
    aborted: the only effect of [validateShield] is the receipt request;
    the shield queue (so the row's Pending status), the POI event queue
    and the blocklist are unchanged, and the policy gate is not called. *)
Theorem validateShield_too_new w s networkName (item : ShieldQueueDBItem.t)
    endTimestamp rcpt timestamp
    (Hr : rpcReceipt w networkName (ShieldQueueDBItem.txid item) = Some rcpt)
    (Ht : rpcBlockTimestamp w networkName rcpt = Some timestamp)
    (Hgt : endTimestamp < timestamp) :
  validateShield networkName item endTimestamp w s
  = (Ok tt, mkSt (shieldQueue s) (networkStatus s) (poiEventQueue s) (blockedShields s)
                 (trace s ++ [ReceiptRequest networkName (ShieldQueueDBItem.txid item)])).
Proof.
  run_steps. rewrite Hr. cbn. rewrite Ht. cbn.
  rewrite (proj2 (Z.ltb_lt _ _) Hgt). reflexivity.
Qed.

(** Claim C10.  When the process is not a list provider,
    [removeTransactProof] resolves and [submitValidatedTxidAndMerkleroot]
    resolves once the list key is read; neither changes the state, so
    neither signs ([Sign]) nor posts ([HttpPost]). *)
Theorem not_list_provider_no_sign_no_request w s nodeURL networkName txidVersion
    listKey blindedCommitmentsOut railgunTxidIfHasUnshield
    (H : isListProvider w = false) :
  removeTransactProof nodeURL networkName txidVersion listKey blindedCommitmentsOut
    railgunTxidIfHasUnshield w s = (Ok tt, s) /\
  forall txidIndex merkleroot,
    submitValidatedTxidAndMerkleroot nodeURL networkName txidVersion txidIndex merkleroot w s
    = (match listPublicKey w with Some _ => Ok tt | None => Err "No list key" end, s).
Proof.
  split.
  - unfold removeTransactProof, bind, ask. rewrite H. reflexivity.
  - intros txidIndex merkleroot.
    unfold submitValidatedTxidAndMerkleroot, bind, ask, getListPublicKey, liftOpt.
    cbn. destruct (listPublicKey w); cbn; [rewrite H|]; reflexivity.
Qed.

(** Claim C4.  For an eligible Pending row whose receipt, timestamp and
    verdict are obtained and whose status update is accepted: on allow,
    exactly one [POIEventShield] with the row's [commitmentHash] and
    [blindedCommitment] is queued, the blocklist is unchanged and the row
    becomes Allowed; on block (the record being signed), exactly one
    signed blocked-shield record is appended, the POI event queue is
    unchanged and the row becomes Blocked. *)
Theorem validateShield_verdict w s networkName (item : ShieldQueueDBItem.t)
    endTimestamp rcpt timestamp shouldAllow blockReason row signature
    (Hrow : shieldQueue s !! itemKey networkName item = Some row)
    (Hpending : ShieldQueueDBItem.status row = Pending)
    (Hr : rpcReceipt w networkName (ShieldQueueDBItem.txid item) = Some rcpt)
    (Ht : rpcBlockTimestamp w networkName rcpt = Some timestamp)
    (Hle : timestamp <= endTimestamp)
    (Hp : policyVerdict w networkName (ShieldQueueDBItem.txid item)
            (toLowerCase (TxReceipt.from rcpt)) timestamp = Some (shouldAllow, blockReason))
    (Hu : updateFails w networkName item = false)
    (Hs : shouldAllow = false ->
          signer w (blockedShieldMessage item blockReason) = Some signature) :
  let s' := snd (validateShield networkName item endTimestamp w s) in
  shieldQueue s' !! itemKey networkName item
    = Some (withStatus row (if shouldAllow then Allowed else Blocked)) /\
  if shouldAllow then
    poiEventQueue s' = poiEventQueue s ++
      [(networkName, POIEventShield.mk POIShield (ShieldQueueDBItem.blindedCommitment item)
                                                 (ShieldQueueDBItem.commitmentHash item))] /\
    blockedShields s' = blockedShields s
  else
    blockedShields s' = blockedShields s ++
      [(networkName, SignedBlockedShield.mk (ShieldQueueDBItem.commitmentHash item)
                       (ShieldQueueDBItem.blindedCommitment item) blockReason signature)] /\
    poiEventQueue s' = poiEventQueue s.
Proof.
  cbv zeta. run_steps. rewrite Hr. cbn. rewrite Ht. cbn.
  rewrite (proj2 (Z.ltb_ge _ _) Hle). cbn. rewrite Hp. cbn.
  destruct shouldAllow; cbn.
  - rewrite Hu. cbn. rewrite Hrow, Hpending. cbn.
    rewrite lookup_insert_eq. auto.
  - rewrite (Hs eq_refl). cbn. rewrite Hu. cbn. rewrite Hrow, Hpending. cbn.
    rewrite lookup_insert_eq. auto.
Qed.

(* ------------------------------------------------------------------ *)
(** ** Traces only grow, by events satisfying a predicate *)

Section Extension.
Variable P : World -> Event -> Prop.


Lemma ext_nil {A} (m : M A) w s : trace (snd (m w s)) = trace s -> ExtendsAt P m w s.
Proof. intros E. exists []. rewrite E, app_nil_r. auto. Qed.

Lemma ext_ret {A} (a : A) : Extends P (ret a).
Proof. intros w s. by apply ext_nil. Qed.

Lemma ext_throw {A} e : Extends P (@throw A e).
Proof. intros w s. by apply ext_nil. Qed.

Lemma ext_liftOpt {A} msg (o : option A) : Extends P (liftOpt msg o).
Proof. destruct o; [apply ext_ret|apply ext_throw]. Qed.

Lemma ext_emit ev : (forall w, P w ev) -> Extends P (emit ev).
Proof. intros H w s. exists [ev]. cbn. auto. Qed.

Lemma ext_bind {A B} (m : M A) (k : A -> M B) :
  Extends P m ->
  (forall w s a s1, m w s = (Ok a, s1) -> ExtendsAt P (k a) w s1) ->
  Extends P (bind m k).
Proof.
  intros Hm Hk w s. unfold ExtendsAt, bind.
  destruct (Hm w s) as (l1 & E1 & F1).
  destruct (m w s) as [[a|e] s1] eqn:Em; cbn in E1.
  - destruct (Hk w s a s1 Em) as (l2 & E2 & F2).
    exists (l1 ++ l2). rewrite E2, E1, app_assoc. split; [done|].
    by apply Forall_app.
  - exists l1. auto.
Qed.

Lemma ext_bind_at {A B} (m : M A) (k : A -> M B) w s :
  ExtendsAt P m w s ->
  (forall a s1, m w s = (Ok a, s1) -> ExtendsAt P (k a) w s1) ->
  ExtendsAt P (bind m k) w s.
Proof.
  intros Hm Hk. unfold ExtendsAt, bind.
  destruct Hm as (l1 & E1 & F1).
  destruct (m w s) as [[a|e] s1] eqn:Em; cbn in E1.
  - destruct (Hk a s1 eq_refl) as (l2 & E2 & F2).
    exists (l1 ++ l2). rewrite E2, E1, app_assoc. split; [done|].
    by apply Forall_app.
  - exists l1. auto.
Qed.

Lemma ext_emit_at ev w s : P w ev -> ExtendsAt P (emit ev) w s.
Proof. intros H. exists [ev]. cbn. auto. Qed.

Lemma ext_bind' {A B} (m : M A) (k : A -> M B) :
  Extends P m -> (forall a, Extends P (k a)) -> Extends P (bind m k).
Proof. intros Hm Hk. apply ext_bind; auto. intros. apply Hk. Qed.

Lemma ext_ask {B} (k : World -> M B) :
  (forall w, Extends P (k w)) -> Extends P (bind ask k).
Proof.
  intros Hk. apply ext_bind; [intros w s; by apply ext_nil|].
  intros w s a s1 E. injection E as <- <-. apply Hk.
Qed.

Lemma ext_get {B} (k : St -> M B) :
  (forall w s, ExtendsAt P (k s) w s) -> Extends P (bind get k).
Proof.
  intros Hk. apply ext_bind; [intros w s; by apply ext_nil|].
  intros w s a s1 E. injection E as <- <-. apply Hk.
Qed.

Lemma ext_put s' w s : trace s' = trace s -> ExtendsAt P (put s') w s.
Proof. intros E. by apply ext_nil. Qed.

Lemma ext_catch {A} (m : M A) (h : string -> M A) :
  Extends P m -> (forall e, Extends P (h e)) -> Extends P (catch m h).
Proof.
  intros Hm Hh w s. unfold ExtendsAt, catch.
  destruct (Hm w s) as (l1 & E1 & F1).
  destruct (m w s) as [[a|e] s1]; cbn in E1.
  - exists l1. auto.
  - destruct (Hh e w s1) as (l2 & E2 & F2).
    exists (l1 ++ l2). rewrite E2, E1, app_assoc. split; [done|].
    by apply Forall_app.
Qed.

Lemma ext_promiseAll (ms : list (M unit)) :
  Forall (Extends P) ms -> Extends P (promiseAll ms).
Proof.
  induction 1 as [|m ms Hm _ IH]; [apply ext_ret|]. intros w s.
  unfold ExtendsAt. cbn. destruct (Hm w s) as (l1 & E1 & F1).
  destruct (m w s) as [[a|e] s1]; cbn in E1;
    destruct (IH w s1) as (l2 & E2 & F2).
  - exists (l1 ++ l2). rewrite E2, E1, app_assoc. split; [done|]. by apply Forall_app.
  - destruct (promiseAll ms w s1) as [r s2] eqn:Ep. cbn in *.
    exists (l1 ++ l2). rewrite E2, E1, app_assoc. split; [done|]. by apply Forall_app.
Qed.

Lemma ext_forSeries {B} (l : list B) (f : B -> M unit) :
  (forall x, Extends P (f x)) -> Extends P (forSeries l f).
Proof.
  intros Hf. induction l as [|x l IH]; [apply ext_ret|].
  apply ext_bind'; auto.
Qed.

End Extension.



Lemma lowerAscii_not_upper c : isUpperAscii (lowerAscii c) = false.
Proof.
  unfold lowerAscii. destruct (isUpperAscii c) eqn:E; [|exact E].
  unfold isUpperAscii in *. apply andb_true_iff in E as [E1 E2].
  apply Nat.leb_le in E1. apply Nat.leb_le in E2.
  rewrite Ascii.nat_ascii_embedding by lia.
  apply andb_false_iff. right. apply Nat.leb_gt. lia.
Qed.

Lemma toLowerCase_no_upper s : hasUpper (toLowerCase s) = false.
Proof.
  induction s as [|c s IH]; [reflexivity|].
  cbn. rewrite lowerAscii_not_upper, IH. reflexivity.
Qed.

Section Operations.
Variable P : World -> Event -> Prop.
Hypothesis P_sign : forall w msg, P w (Sign msg).

Lemma ext_getTransactionReceipt networkName txid :
  (forall w, P w (ReceiptRequest networkName txid)) ->
  Extends P (getTransactionReceipt networkName txid).
Proof.
  intros H. apply ext_bind'; [by apply ext_emit|]. intros [].
  apply ext_ask. intros w. apply ext_liftOpt.
Qed.

Lemma getTransactionReceipt_ok networkName txid w s rcpt s1 :
  getTransactionReceipt networkName txid w s = (Ok rcpt, s1) ->
  rpcReceipt w networkName txid = Some rcpt.
Proof.
  unfold getTransactionReceipt, bind, emit, ask, liftOpt, ret, throw. cbn.
  destruct (rpcReceipt w networkName txid); cbn; congruence.
Qed.

Lemma ext_getTimestampFromTransactionReceipt networkName rcpt :
  Extends P (getTimestampFromTransactionReceipt networkName rcpt).
Proof. apply ext_ask. intros w. apply ext_liftOpt. Qed.

Lemma ext_signMessage msg : Extends P (signMessage msg).
Proof.
  apply ext_bind'; [by apply ext_emit|]. intros [].
  apply ext_ask. intros w. apply ext_liftOpt.
Qed.

Lemma ext_queueUnsignedPOIShieldEvent networkName ev :
  Extends P (queueUnsignedPOIShieldEvent networkName ev).
Proof. apply ext_get. intros w s. by apply ext_put. Qed.

Lemma ext_addBlockedShield networkName it blockReason :
  Extends P (addBlockedShield networkName it blockReason).
Proof.
  apply ext_bind'; [apply ext_signMessage|]. intros sig.
  apply ext_get. intros w s. by apply ext_put.
Qed.

Lemma ext_updateShieldStatus networkName it st :
  Extends P (updateShieldStatus networkName it st).
Proof.
  apply ext_ask. intros w. destruct (updateFails w networkName it); [apply ext_throw|].
  apply ext_get. intros w' s. apply ext_nil. cbv zeta.
  destruct (shieldQueue s !! itemKey networkName it) as [row|]; [|reflexivity].
  destruct (ShieldQueueDBItem.status row), st; reflexivity.
Qed.

Lemma ext_getPendingShields networkName endTimestamp limit :
  (forall w, P w (GetPendingShieldsCall networkName endTimestamp limit)) ->
  Extends P (getPendingShields networkName endTimestamp limit).
Proof.
  intros H. apply ext_bind'; [by apply ext_emit|]. intros [].
  apply ext_ask. intros w. destruct (getPendingFails w networkName); [apply ext_throw|].
  apply ext_get. intros w' s. apply ext_ret.
Qed.

Lemma ext_getMaxTimestampForValidation : Extends P getMaxTimestampForValidation.
Proof. intros w s. by apply ext_nil. Qed.

Lemma ext_validateShieldBody networkName it endTimestamp :
  (forall w, P w (ReceiptRequest networkName (ShieldQueueDBItem.txid it))) ->
  (forall w rcpt timestamp,
     rpcReceipt w networkName (ShieldQueueDBItem.txid it) = Some rcpt ->
     P w (PolicyCall networkName (ShieldQueueDBItem.txid it)
            (toLowerCase (TxReceipt.from rcpt)) timestamp)) ->
  Extends P (validateShieldBody networkName it endTimestamp).
Proof.
  intros HR HC w s. unfold validateShieldBody.
  apply ext_bind_at; [by apply ext_getTransactionReceipt|].
  intros rcpt s1 Er. apply getTransactionReceipt_ok in Er.
  apply ext_bind_at; [apply ext_getTimestampFromTransactionReceipt|].
  intros timestamp s2 _.
  destruct (endTimestamp <? timestamp); [apply ext_throw|].
  apply ext_bind_at.
  { apply ext_bind_at; [by apply ext_emit_at, HC|]. intros [] s3 _.
    apply ext_bind_at; [by apply ext_nil|]. intros w' s4 E. injection E as <- <-.
    apply ext_liftOpt. }
  intros [shouldAllow blockReason] s3 _.
  apply ext_bind'.
  - destruct shouldAllow;
      [apply ext_queueUnsignedPOIShieldEvent|apply ext_addBlockedShield].
  - intros _. apply ext_updateShieldStatus.
Qed.

Lemma ext_validateNextQueuedShieldBatch networkName :
  (forall w e, P w (GetPendingShieldsCall networkName e 100)) ->
  (forall w txid, P w (ReceiptRequest networkName txid)) ->
  (forall w txid rcpt timestamp,
     rpcReceipt w networkName txid = Some rcpt ->
     P w (PolicyCall networkName txid (toLowerCase (TxReceipt.from rcpt)) timestamp)) ->
  Extends P (validateNextQueuedShieldBatch networkName).
Proof.
  intros HG HR HC. unfold validateNextQueuedShieldBatch.
  apply ext_bind'; [apply ext_getMaxTimestampForValidation|]. intros e.
  apply ext_bind'.
  - apply ext_catch; [|intros; apply ext_ret].
    apply ext_bind'; [by apply ext_getPendingShields|]. intros. apply ext_ret.
  - intros [[|x l]|]; try apply ext_ret.
    apply ext_promiseAll. apply Forall_forall. intros m Hm.
    apply list_elem_of_In, in_map_iff in Hm as (y & <- & _).
    apply ext_catch; [|intros; apply ext_ret].
    apply ext_validateShieldBody; eauto.
Qed.

Lemma ext_runValidateQueuedShieldsPoller :
  (forall w n e, P w (GetPendingShieldsCall n e 100)) ->
  (forall w n txid, P w (ReceiptRequest n txid)) ->
  (forall w n txid rcpt timestamp,
     rpcReceipt w n txid = Some rcpt ->
     P w (PolicyCall n txid (toLowerCase (TxReceipt.from rcpt)) timestamp)) ->
  (forall w d, P w (Delay d)) ->
  Extends P runValidateQueuedShieldsPoller.
Proof.
  intros HG HR HC HD. apply ext_ask. intros w.
  apply ext_bind'.
  - apply ext_forSeries. intros n. apply ext_validateNextQueuedShieldBatch; eauto.
  - intros _. by apply ext_emit.
Qed.

End Operations.

(** Claim C9.  Over one pass of the validate-shields poller (all
    networks, every row), every call made to the policy gate passes as
    [fromAddressLowercase] the lowercased [from] of the receipt fetched
    for that txid, and that string has no uppercase letter. *)
Theorem policy_gate_receives_lowercase w s :
  exists l,
    trace (snd (runValidateQueuedShieldsPoller w s)) = trace s ++ l /\
    Forall (policyArgsLowercase w) l.
Proof.
  apply ext_runValidateQueuedShieldsPoller; cbn; auto.
  intros w' n txid rcpt timestamp Hr. exists rcpt.
  split; [done|]. split; [done|]. apply toLowerCase_no_upper.
Qed.

(* ------------------------------------------------------------------ *)
(** ** Ordering and filtering of [getPendingShields] *)


Lemma insertByTimestamp_in x l y :
  In y (insertByTimestamp x l) <-> y = x \/ In y l.
Proof.
  induction l as [|z l IH]; cbn; [intuition congruence|].
  destruct (_ <=? _); cbn; [|rewrite IH]; intuition congruence.
Qed.

Lemma sortByTimestamp_in l y : In y (sortByTimestamp l) <-> In y l.
Proof.
  induction l as [|x l IH]; cbn; [tauto|].
  rewrite insertByTimestamp_in, IH. intuition congruence.
Qed.

Lemma insertByTimestamp_hd y x l :
  HdRel tsLe y l -> tsLe y x -> HdRel tsLe y (insertByTimestamp x l).
Proof.
  intros H Hyx. destruct l as [|z l]; cbn.
  - constructor. exact Hyx.
  - destruct (_ <=? _); constructor; [exact Hyx|]. by inversion H.
Qed.

Lemma insertByTimestamp_sorted x l : Sorted tsLe l -> Sorted tsLe (insertByTimestamp x l).
Proof.
  induction l as [|z l IH]; intros H; cbn.
  - repeat constructor.
  - destruct (ShieldQueueDBItem.timestamp x <=? ShieldQueueDBItem.timestamp z) eqn:E.
    + constructor; [exact H|]. constructor. unfold tsLe. lia.
    + inversion H as [|? ? Hs Hhd]; subst. constructor; [by apply IH|].
      apply insertByTimestamp_hd; [exact Hhd|]. unfold tsLe. lia.
Qed.

Lemma sortByTimestamp_sorted l : Sorted tsLe (sortByTimestamp l).
Proof.
  induction l as [|x l IH]; cbn; [constructor|]. by apply insertByTimestamp_sorted.
Qed.

Lemma take_sorted (n : nat) l : Sorted tsLe l -> Sorted tsLe (take n l).
Proof.
  revert n. induction l as [|x l IH]; intros [|n] H; cbn; [constructor..|].
  inversion H as [|? ? Hs Hhd]; subst. constructor; [by apply IH|].
  destruct l as [|y l], n; cbn; constructor. by inversion Hhd.
Qed.

Lemma take_in (n : nat) (l : list ShieldQueueDBItem.t) y : In y (take n l) -> In y l.
Proof.
  revert n. induction l as [|x l IH]; intros [|n]; cbn; try tauto.
  intros [->|H]; [by left|right; eauto].
Qed.

Lemma rowsOf_in networkName q it :
  In it (rowsOf networkName q) -> exists k, k.1.1 = networkName /\ q !! k = Some it.
Proof.
  unfold rowsOf. intros H. apply in_map_iff in H as ([k v] & <- & H).
  apply filter_In in H as [H Heq]. apply String.eqb_eq in Heq.
  exists k. split; [exact Heq|]. apply elem_of_map_to_list. by apply list_elem_of_In.
Qed.

Lemma getPendingShields_trace networkName endTimestamp limit w s :
  trace (snd (getPendingShields networkName endTimestamp limit w s))
  = trace s ++ [GetPendingShieldsCall networkName endTimestamp limit].
Proof.
  unfold getPendingShields, bind, emit, ask, get, ret, throw. cbn.
  destruct (getPendingFails w networkName); reflexivity.
Qed.

(** Claim C5.  Whenever [getPendingShields(endTimestamp, limit)] returns,
    its rows are stored rows of the network with status Pending and
    [timestamp <= endTimestamp], at most [limit] of them, by ascending
    timestamp, and none on an empty queue; and the validation poller
    calls it with [limit = 100]. *)
Theorem getPendingShields_spec w s networkName endTimestamp limit :
  match getPendingShields networkName endTimestamp limit w s with
  | (Ok rows, _) =>
      (forall it, In it rows ->
         ShieldQueueDBItem.status it = Pending /\
         ShieldQueueDBItem.timestamp it <= endTimestamp /\
         exists k, k.1.1 = networkName /\ shieldQueue s !! k = Some it) /\
      (length rows <= limit)%nat /\
      Sorted tsLe rows /\
      (shieldQueue s = ∅ -> rows = [])
  | (Err _, _) => True
  end /\
  In (GetPendingShieldsCall networkName
        (now w - HOURS_SHIELD_PENDING_PERIOD w * 60 * 60 * 1000) 100)
     (trace (snd (validateNextQueuedShieldBatch networkName w s))).
Proof.
  split.
  - unfold getPendingShields, bind, emit, ask, get, ret, throw. cbn.
    destruct (getPendingFails w networkName); [exact I|].
    split; [|split; [|split]].
    + intros it Hin. apply take_in, (proj1 (sortByTimestamp_in _ _)) in Hin.
      apply filter_In in Hin as [Hin He]. unfold eligible in He.
      apply andb_true_iff in He as [Hp Ht].
      destruct (ShieldQueueDBItem.status it); try discriminate.
      apply Z.leb_le in Ht. split; [done|]. split; [done|].
      by apply rowsOf_in.
    + rewrite length_take. lia.
    + apply take_sorted, sortByTimestamp_sorted.
    + intros E. rewrite E. unfold rowsOf. cbn [shieldQueue]. rewrite map_to_list_empty. destruct limit; reflexivity.
  - unfold validateNextQueuedShieldBatch. unfold bind at 1.
    rewrite getMaxTimestampForValidation_eq. unfold bind at 1.
    set (e := now w - _).
    set (m := catch _ _).
    assert (Hin : In (GetPendingShieldsCall networkName e 100) (trace (snd (m w s)))).
    { subst m. unfold catch, bind at 1.
      pose proof (getPendingShields_trace networkName e 100 w s) as Et.
      destruct (getPendingShields networkName e 100 w s) as [[rows|err] s1];
        cbn in *; rewrite Et; apply in_or_app; right; left; reflexivity. }
    destruct (m w s) as [[r|err] s1]; cbn in Hin; [|exact Hin]. cbv beta iota.
    assert (Hext : Extends (fun _ _ => True)
              (match r with
               | None | Some [] => ret tt
               | Some pendingShields =>
                   promiseAll (map (fun shieldData => validateShield networkName shieldData e)
                                   pendingShields)
               end)).
    { destruct r as [[|x l]|]; try apply ext_ret.
      apply ext_promiseAll. apply Forall_forall. intros m' Hm.
      apply list_elem_of_In, in_map_iff in Hm as (y & <- & _).
      apply ext_catch; [|intros; apply ext_ret].
      apply ext_validateShieldBody; auto. }
    destruct (Hext w s1) as (l & El & _). rewrite El. apply in_or_app. by left.
Qed.

(* ------------------------------------------------------------------ *)
(** ** The queue-shields pass and per-shield isolation *)


Lemma queueShieldSafe_eq networkName sd w s :
  exists q, queueShieldSafe networkName sd w s
    = (Ok tt, mkSt q (networkStatus s) (poiEventQueue s) (blockedShields s)
                   (trace s ++ [InsertAttempt networkName sd])).
Proof.
  unfold queueShieldSafe, catch, insertPendingShield, bind, emit, ask, get, put, ret, throw.
  cbn. destruct (insertFails w networkName sd); cbn; [eexists; reflexivity|].
  destruct (shieldQueue s !! _); eexists; reflexivity.
Qed.

Lemma promiseAll_queueShieldSafe networkName (l : list ShieldData.t) w s :
  exists q, promiseAll (map (queueShieldSafe networkName) l) w s
    = (Ok tt, mkSt q (networkStatus s) (poiEventQueue s) (blockedShields s)
                   (trace s ++ map (InsertAttempt networkName) l)).
Proof.
  revert s. induction l as [|x l IH]; intros s.
  - exists (shieldQueue s). cbn. rewrite app_nil_r. by destruct s.
  - cbn. destruct (queueShieldSafe_eq networkName x w s) as (q1 & E1). rewrite E1.
    destruct (IH (mkSt q1 (networkStatus s) (poiEventQueue s) (blockedShields s)
                       (trace s ++ [InsertAttempt networkName x]))) as (q2 & E2).
    rewrite E2. exists q2. cbn. by rewrite <- app_assoc.
Qed.

Lemma lastElement_cons {A} (x : A) l : exists y, lastElement (x :: l) = Some y.
Proof.
  unfold lastElement. destruct (lookup_lt_is_Some_2 (x :: l) (length (x :: l) - 1)%nat)
    as [y Hy]; [cbn; lia|]. eauto.
Qed.

Lemma lastElement_last {A} (x : A) l d :
  (x :: l) !! (length (x :: l) - 1)%nat = Some (List.last (x :: l) d).
Proof.
  cbn. rewrite Nat.sub_0_r. revert x. induction l as [|y l IH]; intros x; [reflexivity|].
  cbn [length lookup list_lookup]. rewrite IH. reflexivity.
Qed.


Lemma queueNewShields_run w s networkName :
  let startingBlock := nullish (networkStatus s !! networkName) (deploymentBlock w networkName) in
  match walletNewShields w networkName startingBlock with
  | None =>
      queueNewShields networkName w s
      = (Err "Could not get new shields",
         mkSt (shieldQueue s) (networkStatus s) (poiEventQueue s) (blockedShields s)
              (trace s ++ [NewShieldsRequest networkName startingBlock]))
  | Some newShields =>
      exists q r ns,
      queueNewShields networkName w s
      = (r, mkSt q ns (poiEventQueue s) (blockedShields s)
                 (trace s ++ NewShieldsRequest networkName startingBlock
                          :: map (InsertAttempt networkName) newShields
                          ++ saveStatusEvents networkName newShields)) /\
      match lastElement newShields with
      | None => r = Ok tt /\ ns = networkStatus s
      | Some x =>
          match networkStatus s !! networkName with
          | Some cur =>
              if ShieldData.blockNumber x <? cur
              then r = Err "Status must not decrease" /\ ns = networkStatus s
              else r = Ok tt /\
                   ns = <[networkName := ShieldData.blockNumber x]> (networkStatus s)
          | None =>
              r = Ok tt /\ ns = <[networkName := ShieldData.blockNumber x]> (networkStatus s)
          end
      end
  end.
Proof.
  cbv zeta. unfold queueNewShields, getStatus, getNewShieldsFromWallet.
  unfold bind at 1 2 3 4. cbn -[promiseAll map lastElement saveStatus].
  unfold bind at 1 2. cbn -[promiseAll map lastElement saveStatus].
  destruct (walletNewShields w networkName _) as [newShields|]; [|reflexivity].
  cbn -[promiseAll map lastElement saveStatus].
  unfold bind.
  match goal with |- context [promiseAll _ w ?s1] =>
    destruct (promiseAll_queueShieldSafe networkName newShields w s1) as (q & Ep) end.
  rewrite Ep. cbn -[lastElement saveStatus].
  destruct newShields as [|x0 l].
  - exists q, (Ok tt), (networkStatus s). cbn. rewrite !app_nil_r. auto.
  - destruct (lastElement_cons x0 l) as [x Ex].
    unfold saveStatusEvents. rewrite Ex. cbn -[saveStatus].
    unfold saveStatus, bind, emit, get, put, ret, throw. cbn.
    destruct (networkStatus s !! networkName) as [cur|];
      [destruct (ShieldData.blockNumber x <? cur)|];
      eexists _, _, _; (split; [|split]; [rewrite <- !app_assoc; reflexivity|reflexivity..]).
Qed.

(** Claim C7.  One [queueNewShields] run starts from the stored
    [latestBlockScanned], or from the network's [deploymentBlock] when
    none is stored (the first recorded call); it calls [saveStatus]
    exactly when the observer returned at least one shield, with the
    [blockNumber] of the last one, and the stored cursor becomes that
    value (when it does not go back); otherwise the cursor is unchanged. *)
Theorem queueNewShields_cursor w s networkName :
  let startingBlock := nullish (networkStatus s !! networkName) (deploymentBlock w networkName) in
  let s' := snd (queueNewShields networkName w s) in
  match walletNewShields w networkName startingBlock with
  | None =>
      trace s' = trace s ++ [NewShieldsRequest networkName startingBlock] /\
      networkStatus s' = networkStatus s
  | Some newShields =>
      trace s' = trace s ++ NewShieldsRequest networkName startingBlock
                         :: map (InsertAttempt networkName) newShields
                         ++ saveStatusEvents networkName newShields /\
      saveStatusEvents networkName newShields
        = match newShields with
          | [] => []
          | _ :: _ => [SaveStatusCall networkName
                         (ShieldData.blockNumber (List.last newShields (ShieldData.mk "" "" "" 0 0)))]
          end /\
      (newShields = [] -> networkStatus s' = networkStatus s) /\
      (forall x, lastElement newShields = Some x ->
         (forall cur, networkStatus s !! networkName = Some cur ->
                      cur <= ShieldData.blockNumber x) ->
         networkStatus s' = <[networkName := ShieldData.blockNumber x]> (networkStatus s))
  end.
Proof.
  pose proof (queueNewShields_run w s networkName) as Hrun. cbv zeta in *.
  destruct (walletNewShields w networkName _) as [newShields|].
  - destruct Hrun as (q & r & ns & E & Hns). rewrite E. cbn.
    split; [reflexivity|]. split; [|split].
    + unfold saveStatusEvents, lastElement. destruct newShields as [|x l]; [reflexivity|].
      rewrite lastElement_last with (d := ShieldData.mk "" "" "" 0 0). reflexivity.
    + intros ->. cbn in Hns. by destruct Hns.
    + intros x Ex Hmono. rewrite Ex in Hns.
      destruct (networkStatus s !! networkName) as [cur|] eqn:Ec.
      * specialize (Hmono cur eq_refl).
        destruct (ShieldData.blockNumber x <? cur) eqn:Hlt; [apply Z.ltb_lt in Hlt; lia|].
        by destruct Hns.
      * by destruct Hns.
  - rewrite Hrun. cbn. auto.
Qed.

Lemma getTransactionReceipt_trace networkName txid w s :
  trace (snd (getTransactionReceipt networkName txid w s))
  = trace s ++ [ReceiptRequest networkName txid].
Proof.
  unfold getTransactionReceipt, bind, emit, ask, liftOpt, ret, throw. cbn.
  destruct (rpcReceipt w networkName txid); reflexivity.
Qed.

Lemma validateShield_requests_receipt networkName (item : ShieldQueueDBItem.t) e w s :
  In (ReceiptRequest networkName (ShieldQueueDBItem.txid item))
     (trace (snd (validateShield networkName item e w s))).
Proof.
  pose proof (getTransactionReceipt_trace networkName (ShieldQueueDBItem.txid item) w s) as Et.
  unfold validateShield, catch, validateShieldBody. cbv zeta. unfold bind at 1.
  destruct (getTransactionReceipt networkName (ShieldQueueDBItem.txid item) w s)
    as [[rcpt|err] s1]; cbn in Et.
  - match goal with |- context [match ?k w s1 with _ => _ end] =>
      assert (Hk : ExtendsAt Anything k w s1);
      [|destruct Hk as (l & El & _);
        destruct (k w s1) as [[u|err] s2]; cbn in *; rewrite El, Et;
        apply in_or_app; left; apply in_or_app; right; by left] end.
    apply ext_bind_at; [by apply ext_getTimestampFromTransactionReceipt|].
    intros timestamp s2 _.
    destruct (e <? timestamp); [by apply ext_throw|].
    apply ext_bind_at.
    { apply ext_bind_at; [by apply ext_emit_at|]. intros [] s3 _.
      apply ext_bind_at; [by apply ext_nil|]. intros w' s4 E. injection E as <- <-.
      apply ext_liftOpt. }
    intros [shouldAllow blockReason] s3 _.
    apply ext_bind'.
    + destruct shouldAllow;
        [by apply ext_queueUnsignedPOIShieldEvent|by apply ext_addBlockedShield].
    + intros _. by apply ext_updateShieldStatus.
  - cbn. rewrite Et. apply in_or_app. right. by left.
Qed.

Lemma promiseAll_map_marks {B} (f : B -> M unit) (mark : B -> Event) (l : list B) :
  (forall x, Extends Anything (f x)) ->
  (forall x w s, In (mark x) (trace (snd (f x w s)))) ->
  forall w s x, In x l -> In (mark x) (trace (snd (promiseAll (map f l) w s))).
Proof.
  intros Hext Hmark. induction l as [|y l IH]; intros w s x Hx; [destruct Hx|].
  assert (Hall : Extends Anything (promiseAll (map f l))).
  { apply ext_promiseAll. apply Forall_forall. intros m Hm.
    apply list_elem_of_In, in_map_iff in Hm as (z & <- & _). apply Hext. }
  pose proof (Hmark y w s) as Hy. cbn.
  destruct (f y w s) as [[u|err] s1]; cbn in Hy.
  - destruct Hx as [<-|Hx].
    + destruct (Hall w s1) as (l1 & E1 & _). rewrite E1. apply in_or_app. by left.
    + by apply IH.
  - pose proof (IH w s1 x) as IH1.
    destruct (Hall w s1) as (l1 & E1 & _).
    destruct (promiseAll (map f l) w s1) as [r s2]. cbn in *.
    destruct Hx as [<-|Hx].
    + rewrite E1. apply in_or_app. by left.
    + by apply IH1.
Qed.

Lemma validateShieldBody_err_keeps_queue networkName item e w s :
  match validateShieldBody networkName item e w s with
  | (Err _, s1) => shieldQueue s1 = shieldQueue s
  | (Ok _, _) => True
  end.
Proof.
  run_steps.
  repeat (case_match; cbn -[lookup insert] in *; simplify_eq; try done).
Qed.

(** Claim C8.  Per-shield errors are isolated.
    - Queue-shields pass: the batch of [queueShieldSafe] calls resolves
      whatever the inserts do, after an insert attempt for every shield
      in order; [queueNewShields] itself rejects only when the chain
      observer rejects or [saveStatus] refuses the new cursor, never
      because of an insert.
    - Validate-shields pass: [validateNextQueuedShieldBatch] and the
      poller iteration always resolve, every row returned by
      [getPendingShields] gets its receipt requested, and a row whose
      validation fails leaves the shield queue as it was (the row stays
      Pending). *)
Theorem per_shield_errors_isolated w s networkName :
  (forall newShields : list ShieldData.t,
     fst (promiseAll (map (queueShieldSafe networkName) newShields) w s) = Ok tt /\
     trace (snd (promiseAll (map (queueShieldSafe networkName) newShields) w s))
       = trace s ++ map (InsertAttempt networkName) newShields) /\
  (let startingBlock :=
     nullish (networkStatus s !! networkName) (deploymentBlock w networkName) in
   match fst (queueNewShields networkName w s) with
   | Err _ =>
       walletNewShields w networkName startingBlock = None \/
       exists newShields x cur,
         walletNewShields w networkName startingBlock = Some newShields /\
         lastElement newShields = Some x /\
         networkStatus s !! networkName = Some cur /\
         ShieldData.blockNumber x < cur
   | Ok _ => True
   end) /\
  fst (validateNextQueuedShieldBatch networkName w s) = Ok tt /\
  fst (runValidateQueuedShieldsPoller w s) = Ok tt /\
  match getPendingShields networkName
          (now w - HOURS_SHIELD_PENDING_PERIOD w * 60 * 60 * 1000) 100 w s with
  | (Ok rows, _) =>
      forall it, In it rows ->
        In (ReceiptRequest networkName (ShieldQueueDBItem.txid it))
           (trace (snd (validateNextQueuedShieldBatch networkName w s)))
  | (Err _, _) => True
  end /\
  (forall item e,
     fst (validateShield networkName item e w s) = Ok tt /\
     match validateShieldBody networkName item e w s with
     | (Err _, _) => shieldQueue (snd (validateShield networkName item e w s)) = shieldQueue s
     | (Ok _, _) => True
     end).
Proof.
  split; [|split; [|split; [|split; [|split]]]].
  - intros newShields.
    destruct (promiseAll_queueShieldSafe networkName newShields w s) as (q & E).
    rewrite E. auto.
  - pose proof (queueNewShields_run w s networkName) as Hrun. cbv zeta in *.
    destruct (walletNewShields w networkName _) as [newShields|] eqn:Ew.
    + destruct Hrun as (q & r & ns & E & Hns). rewrite E. cbn.
      destruct (lastElement newShields) as [x|] eqn:Ex; [|by destruct Hns as [-> _]].
      destruct (networkStatus s !! networkName) as [cur|] eqn:Ec;
        [|by destruct Hns as [-> _]].
      destruct (ShieldData.blockNumber x <? cur) eqn:Hlt; destruct Hns as [-> _]; [|done].
      right. apply Z.ltb_lt in Hlt. eauto 8.
    + rewrite Hrun. cbn. by left.
  - destruct (validateNextQueuedShieldBatch_nothrow networkName w s) as (a & s1 & E).
    rewrite E. by destruct a.
  - apply runValidateQueuedShieldsPoller_delay.
  - destruct (getPendingShields networkName _ 100 w s) as [[rows|err] s1] eqn:Eg; [|done].
    intros it Hit. unfold validateNextQueuedShieldBatch. unfold bind at 1.
    rewrite getMaxTimestampForValidation_eq. unfold bind at 1.
    unfold catch at 1. unfold bind at 1. rewrite Eg. cbn -[promiseAll map].
    destruct rows as [|r0 rows]; [destruct Hit|].
    apply (promiseAll_map_marks _ (fun it => ReceiptRequest networkName (ShieldQueueDBItem.txid it)));
      [|intros; apply validateShield_requests_receipt|exact Hit].
    intros x. apply ext_catch; [|intros; apply ext_ret].
    apply ext_validateShieldBody; auto.
  - intros item e. pose proof (validateShieldBody_err_keeps_queue networkName item e w s) as H.
    unfold validateShield, catch.
    destruct (validateShieldBody networkName item e w s) as [[[]|err] s1]; cbn; auto.
Qed.

(* ------------------------------------------------------------------ *)
(** ** Concrete instances *)


Lemma validateShield_too_new_witness :
  validateShield "Ethereum" sampleItem 5 (sampleWorld true) sampleSt
  = (Ok tt, mkSt (shieldQueue sampleSt) (networkStatus sampleSt) (poiEventQueue sampleSt)
                 (blockedShields sampleSt) (trace sampleSt ++ [ReceiptRequest "Ethereum" "0x1234"])).
Proof.
  apply (validateShield_too_new (sampleWorld true) sampleSt "Ethereum" sampleItem 5
           sampleReceipt 10); [reflexivity|reflexivity|lia].
Defined.

Lemma validateShield_verdict_witness :
  let s' := snd (validateShield "Ethereum" sampleItem 20 (sampleWorld true) sampleSt) in
  shieldQueue s' !! itemKey "Ethereum" sampleItem = Some (withStatus sampleItem Blocked) /\
  blockedShields s' = blockedShields sampleSt ++
    [("Ethereum", SignedBlockedShield.mk "0x5678" "0x9abc" (Some "excluded") "sig")] /\
  poiEventQueue s' = poiEventQueue sampleSt.
Proof.
  apply (validateShield_verdict (sampleWorld true) sampleSt "Ethereum" sampleItem 20
           sampleReceipt 10 false (Some "excluded") sampleItem "sig");
    [vm_compute; reflexivity|reflexivity|reflexivity|reflexivity|lia
    |reflexivity|reflexivity|intros _; reflexivity].
Defined.

Lemma not_list_provider_no_sign_no_request_witness :
  removeTransactProof "http://node" "Ethereum" "V2_PoseidonMerkle" "key" ["0x1234"] ""
    (sampleWorld false) sampleSt = (Ok tt, sampleSt) /\
  forall txidIndex merkleroot,
    submitValidatedTxidAndMerkleroot "http://node" "Ethereum" "V2_PoseidonMerkle"
      txidIndex merkleroot (sampleWorld false) sampleSt = (Ok tt, sampleSt).
Proof.
  apply (not_list_provider_no_sign_no_request (sampleWorld false) sampleSt "http://node"
           "Ethereum" "V2_PoseidonMerkle" "key" ["0x1234"] ""); reflexivity.
Defined.


Example getPendingShields_age_gating :
  fst (getPendingShields "Ethereum" (93 * dayMsec) 100 (sampleWorld true)
         (mkSt (<[itemKey "Ethereum" recentRow := recentRow]>
                  {[itemKey "Ethereum" oldRow := oldRow]}) ∅ [] [] []))
  = Ok [oldRow].
Proof. vm_compute. reflexivity. Qed.

Example getPendingShields_empty :
  fst (getPendingShields "Ethereum" (93 * dayMsec) 100 (sampleWorld true) emptySt) = Ok [].
Proof. reflexivity. Qed.

(* ------------------------------------------------------------------ *)
(** ** The pollers: order, stopping and waiting *)

Lemma filter_false_nil (f : Event -> bool) (l : list Event) :
  Forall (fun ev => f ev = false) l -> List.filter f l = [].
Proof. induction 1 as [|x l Hx _ IH]; [reflexivity|]. cbn. by rewrite Hx, IH. Qed.

Lemma validateNextQueuedShieldBatch_queries networkName w s :
  exists l, trace (snd (validateNextQueuedShieldBatch networkName w s)) = trace s ++ l /\
    List.filter isPendingQuery l
    = [GetPendingShieldsCall networkName
         (now w - HOURS_SHIELD_PENDING_PERIOD w * 60 * 60 * 1000) 100].
Proof.
  unfold validateNextQueuedShieldBatch. unfold bind at 1.
  rewrite getMaxTimestampForValidation_eq. unfold bind at 1.
  set (e := now w - _).
  set (m := catch _ _).
  assert (Hm : trace (snd (m w s)) = trace s ++ [GetPendingShieldsCall networkName e 100]).
  { subst m. unfold catch, bind at 1.
    pose proof (getPendingShields_trace networkName e 100 w s) as Et.
    destruct (getPendingShields networkName e 100 w s) as [[rows|err] s1]; cbn in *; exact Et. }
  destruct (m w s) as [[r|err] s1]; cbn in Hm;
    [|exists [GetPendingShieldsCall networkName e 100]; split; [exact Hm|reflexivity]].
  cbv beta iota.
  destruct r as [[|x rows]|];
    [exists [GetPendingShieldsCall networkName e 100]; split; [exact Hm|reflexivity]| |
     exists [GetPendingShieldsCall networkName e 100]; split; [exact Hm|reflexivity]].
  assert (Hext : Extends (fun _ ev => isPendingQuery ev = false)
                   (promiseAll (map (fun sd => validateShield networkName sd e) (x :: rows)))).
  { apply ext_promiseAll. apply Forall_forall. intros m' Hm'.
    apply list_elem_of_In, in_map_iff in Hm' as (y & <- & _).
    apply ext_catch; [|intros; apply ext_ret].
    apply ext_validateShieldBody; intros; reflexivity. }
  destruct (Hext w s1) as (l & El & Fl).
  exists (GetPendingShieldsCall networkName e 100 :: l).
  rewrite El, Hm, <- app_assoc. split; [reflexivity|].
  cbn. by rewrite (filter_false_nil _ _ Fl).
Qed.

Lemma forSeries_validate_queries w ns s :
  exists l, trace (snd (forSeries ns validateNextQueuedShieldBatch w s)) = trace s ++ l /\
    List.filter isPendingQuery l
    = map (fun n => GetPendingShieldsCall n
                      (now w - HOURS_SHIELD_PENDING_PERIOD w * 60 * 60 * 1000) 100) ns.
Proof.
  revert s. induction ns as [|n ns IH]; intros s.
  - exists []. rewrite app_nil_r. split; reflexivity.
  - cbn [forSeries]. unfold bind.
    destruct (validateNextQueuedShieldBatch_nothrow n w s) as (a & s1 & E).
    destruct (validateNextQueuedShieldBatch_queries n w s) as (l1 & E1 & F1).
    rewrite E in E1 |- *. cbn in E1.
    destruct (IH s1) as (l2 & E2 & F2).
    exists (l1 ++ l2). rewrite E2, E1, <- app_assoc. split; [reflexivity|].
    rewrite List.filter_app, F1, F2. reflexivity.
Qed.

(** One iteration of the validate-shields poller queries the pending
    shields of every network once, in the order of [NETWORK_NAMES], each
    query with limit 100 and the cut-off [now - HOURS_SHIELD_PENDING_PERIOD]
    hours; it makes no other query. *)
Theorem runValidateQueuedShieldsPoller_queries w s :
  exists l, trace (snd (runValidateQueuedShieldsPoller w s)) = trace s ++ l /\
    List.filter isPendingQuery l
    = map (fun n => GetPendingShieldsCall n
                      (now w - HOURS_SHIELD_PENDING_PERIOD w * 60 * 60 * 1000) 100)
          (NETWORK_NAMES w).
Proof.
  unfold runValidateQueuedShieldsPoller, bind at 1, ask.
  unfold bind.
  destruct (forSeries_nothrow (NETWORK_NAMES w) validateNextQueuedShieldBatch
              validateNextQueuedShieldBatch_nothrow w s) as (a & s1 & E).
  destruct (forSeries_validate_queries w (NETWORK_NAMES w) s) as (l & El & Fl).
  rewrite E in El |- *. cbn in El |- *.
  eexists. rewrite El, <- app_assoc. split; [reflexivity|].
  rewrite List.filter_app, Fl. cbn. by rewrite app_nil_r.
Qed.

(** When the pending-shields query of a network rejects, or finds no
    eligible row, the batch resolves and its only effect is the query:
    no receipt is requested and no store changes. *)
Theorem validateNextQueuedShieldBatch_no_rows networkName w s
    (H : getPendingFails w networkName = true \/
         List.filter (eligible (now w - HOURS_SHIELD_PENDING_PERIOD w * 60 * 60 * 1000))
           (rowsOf networkName (shieldQueue s)) = []) :
  validateNextQueuedShieldBatch networkName w s
  = (Ok tt, appendTrace s [GetPendingShieldsCall networkName
                             (now w - HOURS_SHIELD_PENDING_PERIOD w * 60 * 60 * 1000) 100]).
Proof.
  unfold validateNextQueuedShieldBatch, getPendingShields, getMaxTimestampForValidation,
    hoursAgo, catch, bind, emit, ask, get, ret, throw.
  cbn -[rowsOf eligible].
  destruct H as [Hf|Hnil].
  - rewrite Hf. reflexivity.
  - destruct (getPendingFails w networkName); [reflexivity|].
    cbn -[rowsOf eligible]. rewrite Hnil. reflexivity.
Qed.

Lemma queueNewShields_no_delay networkName :
  Extends (fun _ ev => isDelay ev = false) (queueNewShields networkName).
Proof.
  intros w s. unfold ExtendsAt.
  pose proof (queueNewShields_run w s networkName) as Hrun. cbv zeta in Hrun.
  destruct (walletNewShields w networkName _) as [newShields|].
  - destruct Hrun as (q & r & ns & E & _). rewrite E. eexists. split; [reflexivity|].
    constructor; [reflexivity|]. apply Forall_app. split.
    + apply Forall_forall. intros x Hx.
      apply list_elem_of_In, in_map_iff in Hx as (y & <- & _). reflexivity.
    + unfold saveStatusEvents. destruct (lastElement newShields); repeat constructor.
  - rewrite Hrun. eexists. split; [reflexivity|]. repeat constructor.
Qed.

(** One iteration of the queue-shields poller either resolves, and then
    the last thing it does is wait [queueShieldsOverrideDelayMsec], or
    20 minutes when that is unset; or it rejects, and then it has not
    waited at all (so the recursive call that starts the next iteration
    is never reached). *)
Theorem runQueueShieldsPoller_delay_or_stop w s :
  match runQueueShieldsPoller w s with
  | (Ok _, s') =>
      lastDelay s' = Some (nullish (queueShieldsOverrideDelayMsec (config w))
                                   DEFAULT_QUEUE_SHIELDS_DELAY_MSEC)
  | (Err _, s') =>
      exists l, trace s' = trace s ++ l /\ Forall (fun ev => isDelay ev = false) l
  end.
Proof.
  unfold runQueueShieldsPoller, bind at 1, ask. cbv beta iota. unfold bind.
  destruct (ext_forSeries _ (NETWORK_NAMES w) queueNewShields queueNewShields_no_delay w s)
    as (l & El & Fl).
  destruct (forSeries (NETWORK_NAMES w) queueNewShields w s) as [[u|err] s1]; cbn in El.
  - unfold delay, emit, lastDelay. cbn. rewrite last_snoc. reflexivity.
  - eauto.
Qed.

(** When the chain observer rejects for the first network, the
    queue-shields iteration rejects right after that request: no later
    network is polled, no shield is inserted, no cursor is saved and no
    delay is waited. *)
Theorem runQueueShieldsPoller_observer_fails w s networkName rest
    (Hn : NETWORK_NAMES w = networkName :: rest)
    (Hw : walletNewShields w networkName
            (nullish (networkStatus s !! networkName) (deploymentBlock w networkName)) = None) :
  runQueueShieldsPoller w s
  = (Err "Could not get new shields",
     appendTrace s [NewShieldsRequest networkName
                      (nullish (networkStatus s !! networkName) (deploymentBlock w networkName))]).
Proof.
  unfold runQueueShieldsPoller, bind at 1, ask. cbv beta iota. rewrite Hn.
  cbn [forSeries]. unfold bind.
  pose proof (queueNewShields_run w s networkName) as Hrun. cbv zeta in Hrun.
  rewrite Hw in Hrun. rewrite Hrun. reflexivity.
Qed.

(* ------------------------------------------------------------------ *)
(** ** Validation of one shield: the policy gate and partial failures *)

(** [validateShield] calls the policy gate at most once: exactly when the
    receipt and its block timestamp were obtained and the timestamp is not
    after [endTimestamp], with the receipt's lowercased [from] and the
    receipt's timestamp (not the row's); otherwise never. *)
Theorem validateShield_policy_calls networkName (item : ShieldQueueDBItem.t) endTimestamp w s :
  exists l, trace (snd (validateShield networkName item endTimestamp w s)) = trace s ++ l /\
    List.filter isPolicyCall l
    = match rpcReceipt w networkName (ShieldQueueDBItem.txid item) with
      | Some rcpt =>
          match rpcBlockTimestamp w networkName rcpt with
          | Some timestamp =>
              if endTimestamp <? timestamp then []
              else [PolicyCall networkName (ShieldQueueDBItem.txid item)
                      (toLowerCase (TxReceipt.from rcpt)) timestamp]
          | None => []
          end
      | None => []
      end.
Proof.
  run_steps.
  repeat (case_match; cbn -[lookup insert] in *; simplify_eq);
    eexists; (split; [rewrite <- ?app_assoc; reflexivity|reflexivity]).
Qed.

(** When the status update of an allowed or blocked shield rejects,
    [validateShield] still resolves, and what was done before the update
    stays done: the POI event was queued (allow) or the signed record
    appended (block), while the row keeps its status. *)
Theorem validateShield_update_fails w s networkName (item : ShieldQueueDBItem.t)
    endTimestamp rcpt timestamp shouldAllow blockReason signature
    (Hr : rpcReceipt w networkName (ShieldQueueDBItem.txid item) = Some rcpt)
    (Ht : rpcBlockTimestamp w networkName rcpt = Some timestamp)
    (Hle : timestamp <= endTimestamp)
    (Hp : policyVerdict w networkName (ShieldQueueDBItem.txid item)
            (toLowerCase (TxReceipt.from rcpt)) timestamp = Some (shouldAllow, blockReason))
    (Hu : updateFails w networkName item = true)
    (Hs : shouldAllow = false ->
          signer w (blockedShieldMessage item blockReason) = Some signature) :
  let r := validateShield networkName item endTimestamp w s in
  fst r = Ok tt /\
  shieldQueue (snd r) = shieldQueue s /\
  networkStatus (snd r) = networkStatus s /\
  if shouldAllow then
    poiEventQueue (snd r) = poiEventQueue s ++
      [(networkName, POIEventShield.mk POIShield (ShieldQueueDBItem.blindedCommitment item)
                                                 (ShieldQueueDBItem.commitmentHash item))] /\
    blockedShields (snd r) = blockedShields s
  else
    blockedShields (snd r) = blockedShields s ++
      [(networkName, SignedBlockedShield.mk (ShieldQueueDBItem.commitmentHash item)
                       (ShieldQueueDBItem.blindedCommitment item) blockReason signature)] /\
    poiEventQueue (snd r) = poiEventQueue s.
Proof.
  cbv zeta. run_steps. rewrite Hr. cbn. rewrite Ht. cbn.
  rewrite (proj2 (Z.ltb_ge _ _) Hle). cbn. rewrite Hp. cbn.
  destruct shouldAllow; cbn.
  - rewrite Hu. cbn. auto.
  - rewrite (Hs eq_refl). cbn. rewrite Hu. cbn. auto.
Qed.

(** When a shield is blocked but signing its blocked record fails,
    [validateShield] resolves having changed no store: nothing is added
    to the blocklist and the row stays as it was (so it is still
    Pending for the next pass). *)
Theorem validateShield_block_sign_fails w s networkName (item : ShieldQueueDBItem.t)
    endTimestamp rcpt timestamp blockReason
    (Hr : rpcReceipt w networkName (ShieldQueueDBItem.txid item) = Some rcpt)
    (Ht : rpcBlockTimestamp w networkName rcpt = Some timestamp)
    (Hle : timestamp <= endTimestamp)
    (Hp : policyVerdict w networkName (ShieldQueueDBItem.txid item)
            (toLowerCase (TxReceipt.from rcpt)) timestamp = Some (false, blockReason))
    (Hs : signer w (blockedShieldMessage item blockReason) = None) :
  validateShield networkName item endTimestamp w s
  = (Ok tt, appendTrace s
              [ReceiptRequest networkName (ShieldQueueDBItem.txid item);
               PolicyCall networkName (ShieldQueueDBItem.txid item)
                 (toLowerCase (TxReceipt.from rcpt)) timestamp;
               Sign (blockedShieldMessage item blockReason)]).
Proof.
  run_steps. rewrite Hr. cbn. rewrite Ht. cbn.
  rewrite (proj2 (Z.ltb_ge _ _) Hle). cbn. rewrite Hp. cbn. rewrite Hs. cbn.
  unfold appendTrace. rewrite <- !app_assoc. reflexivity.
Qed.

(* ------------------------------------------------------------------ *)
(** ** Signed node requests *)

(** As a list provider, [removeTransactProof] signs first and posts
    after: if signing fails it rejects without any request; otherwise it
    posts once to [nodeURL/remove-transact-proof/<chain>] and rejects
    exactly when that request fails. *)
Theorem removeTransactProof_signs_then_posts w s nodeURL networkName txidVersion listKey
    blindedCommitmentsOut railgunTxidIfHasUnshield
    (H : isListProvider w = true) :
  let url := getNodeRouteURL nodeURL
               (String.append "remove-transact-proof/" (chainRoute w networkName)) in
  exists msg,
    removeTransactProof nodeURL networkName txidVersion listKey blindedCommitmentsOut
      railgunTxidIfHasUnshield w s
    = match signer w msg with
      | None => (Err "Signing failed", appendTrace s [Sign msg])
      | Some _ => (if postFails w url then Err "Request failed" else Ok tt,
                   appendTrace s [Sign msg; HttpPost url])
      end.
Proof.
  cbv zeta.
  exists (String.append (String.concat "" blindedCommitmentsOut) railgunTxidIfHasUnshield).
  unfold removeTransactProof, signRemoveProof, signMessage, postRequest,
    bind, ask, emit, liftOpt, ret, throw.
  cbn. rewrite H. cbn.
  match goal with |- context [signer w ?m] => destruct (signer w m) end;
    cbn; [destruct (postFails w _)|]; unfold appendTrace; cbn;
    rewrite <- ?app_assoc; reflexivity.
Qed.


(* ------------------------------------------------------------------ *)
(** ** Witnesses of the hypotheses above *)

Lemma validateNextQueuedShieldBatch_no_rows_witness :
  List.filter (eligible (now (sampleWorld true)
                          - HOURS_SHIELD_PENDING_PERIOD (sampleWorld true) * 60 * 60 * 1000))
    (rowsOf "Ethereum" (shieldQueue sampleSt)) = [] /\
  validateNextQueuedShieldBatch "Ethereum" (sampleWorld true) sampleSt
  = (Ok tt, appendTrace sampleSt [GetPendingShieldsCall "Ethereum"
                                   (now (sampleWorld true)
                                    - HOURS_SHIELD_PENDING_PERIOD (sampleWorld true)
                                      * 60 * 60 * 1000) 100]).
Proof.
  split; [vm_compute; reflexivity|].
  apply validateNextQueuedShieldBatch_no_rows. right. vm_compute. reflexivity.
Defined.

Lemma runQueueShieldsPoller_observer_fails_witness :
  NETWORK_NAMES observerDownWorld = ["Ethereum"; "Polygon"] /\
  walletNewShields observerDownWorld "Ethereum"
    (nullish (networkStatus emptySt !! "Ethereum") (deploymentBlock observerDownWorld "Ethereum"))
    = None /\
  runQueueShieldsPoller observerDownWorld emptySt
  = (Err "Could not get new shields",
     appendTrace emptySt [NewShieldsRequest "Ethereum"
                            (nullish (networkStatus emptySt !! "Ethereum")
                                     (deploymentBlock observerDownWorld "Ethereum"))]).
Proof.
  split; [reflexivity|]. split; [reflexivity|].
  apply (runQueueShieldsPoller_observer_fails observerDownWorld emptySt "Ethereum" ["Polygon"]);
    reflexivity.
Defined.

Lemma validateShield_update_fails_witness :
  let r := validateShield "Ethereum" sampleItem 100 updateDownWorld sampleSt in
  fst r = Ok tt /\
  shieldQueue (snd r) = shieldQueue sampleSt /\
  networkStatus (snd r) = networkStatus sampleSt /\
  poiEventQueue (snd r) = poiEventQueue sampleSt ++
    [("Ethereum", POIEventShield.mk POIShield "0x9abc" "0x5678")] /\
  blockedShields (snd r) = blockedShields sampleSt.
Proof.
  apply (validateShield_update_fails updateDownWorld sampleSt "Ethereum" sampleItem 100
           sampleReceipt 10 true None "sig");
    [reflexivity|reflexivity|lia|reflexivity|reflexivity|discriminate].
Defined.

Lemma validateShield_block_sign_fails_witness :
  validateShield "Ethereum" sampleItem 100 signerDownWorld sampleSt
  = (Ok tt, appendTrace sampleSt
              [ReceiptRequest "Ethereum" (ShieldQueueDBItem.txid sampleItem);
               PolicyCall "Ethereum" (ShieldQueueDBItem.txid sampleItem)
                 (toLowerCase (TxReceipt.from sampleReceipt)) 10;
               Sign (blockedShieldMessage sampleItem (Some "excluded"))]).
Proof.
  apply (validateShield_block_sign_fails signerDownWorld sampleSt "Ethereum" sampleItem 100
           sampleReceipt 10 (Some "excluded"));
    [reflexivity|reflexivity|lia|reflexivity|reflexivity].
Defined.

Lemma removeTransactProof_signs_then_posts_witness :
  isListProvider (sampleWorld true) = true /\
  let url := getNodeRouteURL "http://node"
               (String.append "remove-transact-proof/" (chainRoute (sampleWorld true) "Ethereum")) in
  exists msg,
    removeTransactProof "http://node" "Ethereum" "V2_PoseidonMerkle" "key" ["0x1234"] ""
      (sampleWorld true) sampleSt
    = match signer (sampleWorld true) msg with
      | None => (Err "Signing failed", appendTrace sampleSt [Sign msg])
      | Some _ => (if postFails (sampleWorld true) url then Err "Request failed" else Ok tt,
                   appendTrace sampleSt [Sign msg; HttpPost url])
      end.
Proof.
  split; [reflexivity|].
  apply (removeTransactProof_signs_then_posts (sampleWorld true) sampleSt "http://node"
           "Ethereum" "V2_PoseidonMerkle" "key" ["0x1234"] ""); reflexivity.
Defined.


(* ------------------------------------------------------------------ *)
(** ** What each poller leaves alone *)

Section Keeps.
Context {X : Type} (f : St -> X).
Hypothesis f_appendTrace : forall s l, f (appendTrace s l) = f s.

Lemma keeps_ret {A} (a : A) : Keeps f (ret a).
Proof. intros w s. reflexivity. Qed.

Lemma keeps_liftOpt {A} msg (o : option A) : Keeps f (liftOpt msg o).
Proof. intros w s. destruct o; reflexivity. Qed.

Lemma keeps_emit ev : Keeps f (emit ev).
Proof. intros w s. apply (f_appendTrace s [ev]). Qed.

Lemma keeps_bind {A B} (m : M A) (k : A -> M B) :
  Keeps f m -> (forall a, Keeps f (k a)) -> Keeps f (bind m k).
Proof.
  intros Hm Hk w s. unfold bind. specialize (Hm w s).
  destruct (m w s) as [[a|e] s1]; cbn in *; [rewrite Hk|]; exact Hm.
Qed.

Lemma keeps_ask {B} (k : World -> M B) :
  (forall w, Keeps f (k w)) -> Keeps f (bind ask k).
Proof. intros Hk w s. apply Hk. Qed.

Lemma keeps_catch {A} (m : M A) (h : string -> M A) :
  Keeps f m -> (forall e, Keeps f (h e)) -> Keeps f (catch m h).
Proof.
  intros Hm Hh w s. unfold catch. specialize (Hm w s).
  destruct (m w s) as [[a|e] s1]; cbn in *; [|rewrite Hh]; exact Hm.
Qed.

Lemma keeps_promiseAll (ms : list (M unit)) :
  Forall (Keeps f) ms -> Keeps f (promiseAll ms).
Proof.
  induction 1 as [|m ms Hm _ IH]; [apply keeps_ret|]. intros w s. cbn.
  specialize (Hm w s). destruct (m w s) as [[a|e] s1]; cbn in Hm.
  - rewrite IH. exact Hm.
  - specialize (IH w s1). destruct (promiseAll ms w s1) as [r s2]. cbn in *.
    rewrite IH. exact Hm.
Qed.

Lemma keeps_forSeries {B} (l : list B) (g : B -> M unit) :
  (forall x, Keeps f (g x)) -> Keeps f (forSeries l g).
Proof.
  intros Hg. induction l as [|x l IH]; [apply keeps_ret|].
  apply keeps_bind; auto.
Qed.

End Keeps.

Lemma validateShield_keeps_cursor networkName it endTimestamp :
  Keeps networkStatus (validateShield networkName it endTimestamp).
Proof.
  intros w s. run_steps.
  repeat (case_match; cbn -[lookup insert] in *; simplify_eq); reflexivity.
Qed.

Lemma validateNextQueuedShieldBatch_keeps_cursor networkName :
  Keeps networkStatus (validateNextQueuedShieldBatch networkName).
Proof.
  assert (Ht : forall s l, networkStatus (appendTrace s l) = networkStatus s) by reflexivity.
  unfold validateNextQueuedShieldBatch.
  apply keeps_bind; [by intros w s|]. intros e.
  apply keeps_bind.
  - apply keeps_catch; [|intros; apply keeps_ret].
    apply keeps_bind; [|intros; apply keeps_ret].
    intros w s. unfold getPendingShields, bind, emit, ask, get, ret, throw. cbn.
    destruct (getPendingFails w networkName); reflexivity.
  - intros [[|x l]|]; try apply keeps_ret.
    apply keeps_promiseAll. apply Forall_forall. intros m Hm.
    apply list_elem_of_In, in_map_iff in Hm as (y & <- & _).
    apply validateShield_keeps_cursor.
Qed.

(** The validate-shields poller never moves the scan cursor: one
    iteration leaves [latestBlockScanned] of every network as it was,
    whatever the collaborators answer. *)
Theorem runValidateQueuedShieldsPoller_keeps_cursor w s :
  networkStatus (snd (runValidateQueuedShieldsPoller w s)) = networkStatus s.
Proof.
  assert (Ht : forall s l, networkStatus (appendTrace s l) = networkStatus s) by reflexivity.
  revert w s. unfold runValidateQueuedShieldsPoller.
  apply keeps_ask. intros w. apply keeps_bind.
  - apply keeps_forSeries. apply validateNextQueuedShieldBatch_keeps_cursor.
  - intros _. by apply keeps_emit.
Qed.

Lemma queueNewShields_keeps_outputs networkName :
  Keeps (fun s => (poiEventQueue s, blockedShields s)) (queueNewShields networkName).
Proof.
  intros w s. pose proof (queueNewShields_run w s networkName) as Hrun. cbv zeta in Hrun.
  destruct (walletNewShields w networkName _) as [newShields|].
  - destruct Hrun as (q & r & ns & E & _). by rewrite E.
  - by rewrite Hrun.
Qed.

(** The queue-shields poller never produces output for the POI nodes:
    one iteration appends no POI event and no blocked-shield record,
    whatever the collaborators answer (only the validate pass does). *)
Theorem runQueueShieldsPoller_keeps_outputs w s :
  poiEventQueue (snd (runQueueShieldsPoller w s)) = poiEventQueue s /\
  blockedShields (snd (runQueueShieldsPoller w s)) = blockedShields s.
Proof.
  assert (Hk : Keeps (fun s => (poiEventQueue s, blockedShields s)) runQueueShieldsPoller).
  { assert (Ht : forall s l, (poiEventQueue (appendTrace s l), blockedShields (appendTrace s l))
                             = (poiEventQueue s, blockedShields s)) by reflexivity.
    unfold runQueueShieldsPoller.
    apply keeps_ask. intros w'. apply keeps_bind.
    - apply keeps_forSeries. apply queueNewShields_keeps_outputs.
    - intros _. by apply keeps_emit. }
  specialize (Hk w s). cbn in Hk. by injection Hk.
Qed.

